(** * Message synchronizer of the OpenIM client SDK

    A shallow embedding of [package interaction] (the message syncer:
    [MsgSyncer] and its methods) and of [pkg/db/super_group_model.go],
    followed by the properties stated about them.

    Conventions of the embedding.
    - Go [int64] and [int32] values are [Z]; arithmetic that can leave the
      64-bit range is written with [wrap64].
    - A Go map is a [gmap]; reading an absent key yields the zero value.
    - A Go slice is a [list]; the nil slice is [[]].
    - An [error] is an [option string], [None] being [nil].
    - A function that can panic or loop returns an [Outcome]; loops whose
      termination depends on the input carry a fuel argument counting
      iterations.
    - [context.Context] arguments and logging have no effect on the values
      computed and are left out. *)

From stdpp Require Import gmap strings list fin_maps.

Local Open Scope Z_scope.

(** ** Run-time outcomes *)

Inductive Outcome (A : Type) : Type :=
| Returned (a : A)
| Panicked
| OutOfFuel.
Arguments Returned {A} a.
Arguments Panicked {A}.
Arguments OutOfFuel {A}.

#[global] Instance Outcome_ret : MRet Outcome := fun _ a => Returned a.
#[global] Instance Outcome_bind : MBind Outcome := fun _ _ k o =>
  match o with
  | Returned a => k a
  | Panicked => Panicked
  | OutOfFuel => OutOfFuel
  end.

Definition error : Type := option string.

(** ** Machine integers *)

Definition min_int64 : Z := - 2 ^ 63.
Definition max_int64 : Z := 2 ^ 63 - 1.

Definition wrap64 (z : Z) : Z := (z + 2 ^ 63) mod 2 ^ 64 - 2 ^ 63.

Definition is_int64 (z : Z) : Prop := min_int64 <= z <= max_int64.

(** ** Constants and types of the collaborating packages *)

Module constant.

(** The command names are distinct string constants of package [constant];
    [CmdOther] stands for any name that is none of the five the
    synchronizer switches on. *)
Inductive Cmd : Type :=
| CmdInit
| CmdReconnect
| CmdConnSuccesss
| CmdMaxSeq
| CmdPushMsg
| CmdOther (name : string).

End constant.

Module sdkws.

(** The fields of [sdkws.MsgData] the synchronizer reads, and the client
    message id to tell messages apart. *)
Record MsgData : Type := {
  ClientMsgID : string;
  GroupID : string;
  SessionType : Z;
  Seq : Z
}.

(** [PullMessageBySeqsReq]: the synchronizer fills in [UserID] only. *)
Record PullMessageBySeqsReq : Type := {
  UserID : string
}.

Record PullMessageBySeqsResp : Type := {
  List : list MsgData
}.

End sdkws.

(** [const ( timeout = 60; retryTimes = 2; defaultPullNums = 1 )] *)
Definition timeout : Z := 60.
Definition retryTimes : Z := 2.
Definition defaultPullNums : Z := 1.

Record Seq : Type := {
  maxSeq : Z;
  minSeq : Z;
  seq_sessionType : Z
}.

Record SyncedSeq : Type := {
  maxSeqSynced : Z;
  sessionType : Z
}.

(** The zero value of [SyncedSeq], read from the map at an absent key. *)
Definition SyncedSeq_zero : SyncedSeq := {| maxSeqSynced := 0; sessionType := 0 |}.

(** ** Synchronizer state

    [trace] is the record of what the synchronizer asked of its
    collaborators, oldest first: every call of [syncMsgBySeqsInterval]
    with its arguments, and every message list handed to
    [common.TriggerCmdNewMsgCome] for [conversationCh]. *)

Inductive Event : Type :=
| EvPull (sourceID : string) (sessionType syncedMaxSeq maxSeq : Z)
| EvNewMsgCome (msgs : list sdkws.MsgData).

Record MsgSyncer : Type := {
  loginUserID : string;
  syncedMaxSeqs : gmap string SyncedSeq;
  syncTimes : Z;
  trace : list Event
}.

Definition set_syncedMaxSeqs (f : gmap string SyncedSeq -> gmap string SyncedSeq)
    (m : MsgSyncer) : MsgSyncer :=
  {| loginUserID := loginUserID m;
     syncedMaxSeqs := f (syncedMaxSeqs m);
     syncTimes := syncTimes m;
     trace := trace m |}.

Definition set_syncTimes (f : Z -> Z) (m : MsgSyncer) : MsgSyncer :=
  {| loginUserID := loginUserID m;
     syncedMaxSeqs := syncedMaxSeqs m;
     syncTimes := f (syncTimes m);
     trace := trace m |}.

Definition emit (e : Event) (m : MsgSyncer) : MsgSyncer :=
  {| loginUserID := loginUserID m;
     syncedMaxSeqs := syncedMaxSeqs m;
     syncTimes := syncTimes m;
     trace := trace m ++ [e] |}.

(** [m.syncedMaxSeqs[key]] as an expression: the zero value when absent. *)
Definition synced_at (m : MsgSyncer) (key : string) : SyncedSeq :=
  default SyncedSeq_zero (syncedMaxSeqs m !! key).

(** The cursor of a conversation. *)
Definition cursor (m : MsgSyncer) (key : string) : Z :=
  maxSeqSynced (synced_at m key).

(** ** Delivery and the fetch path *)

(** [triggerConversation]: the list goes to [conversationCh]; the error of
    the send is returned and every caller drops it. *)
Definition triggerConversation (msgs : list sdkws.MsgData) (m : MsgSyncer) : MsgSyncer :=
  emit (EvNewMsgCome msgs) m.

(** [syncMsgBySeqsInterval]: the named results are returned as they are
    declared, a nil slice and a nil error. *)
Definition syncMsgBySeqsInterval (sourceID : string)
    (sesstionType syncedMaxSeq syncedMinSeq : Z) : list sdkws.MsgData * error :=
  ([], None).

Section sync_over_a_fetcher.

(** [syncAndTriggerMsgs] and [sync] written over the function they call at
    [m.syncMsgBySeqsInterval], so that both arms of their error handling
    can be exercised. *)
Variable pull : string -> Z -> Z -> Z -> list sdkws.MsgData * error.

Definition syncAndTriggerMsgs_with (sourceID : string)
    (sessionType syncedMaxSeq maxSeq : Z) (m : MsgSyncer) : MsgSyncer * error :=
  let m1 := emit (EvPull sourceID sessionType syncedMaxSeq maxSeq) m in
  match pull sourceID sessionType syncedMaxSeq maxSeq with
  | (_, Some err) => (m1, Some err)
  | (msgs, None) => (triggerConversation msgs m1, None)
  end.

Definition sync_with (sourceID : string)
    (sessionType syncedMaxSeq maxSeq : Z) (m : MsgSyncer) : MsgSyncer * error :=
  match syncAndTriggerMsgs_with sourceID sessionType syncedMaxSeq maxSeq m with
  | (m1, Some err) => (m1, Some err)
  | (m1, None) =>
      (set_syncedMaxSeqs
         (insert sourceID {| maxSeqSynced := maxSeq; sessionType := sessionType |}) m1,
       None)
  end.

End sync_over_a_fetcher.

Definition syncAndTriggerMsgs := syncAndTriggerMsgs_with syncMsgBySeqsInterval.
Definition sync := sync_with syncMsgBySeqsInterval.

(** ** Range enumeration and sharding *)

(** [getSeqsNeedSync]: [for i := syncedMaxSeq + 1; i <= maxSeq; i++]. *)
Fixpoint getSeqsNeedSync_loop (fuel : nat) (i maxSeq : Z) (seqs : list Z)
    : Outcome (list Z) :=
  if i <=? maxSeq then
    match fuel with
    | O => OutOfFuel
    | S fuel' => getSeqsNeedSync_loop fuel' (wrap64 (i + 1)) maxSeq (seqs ++ [i])
    end
  else Returned seqs.

Definition getSeqsNeedSync (fuel : nat) (syncedMaxSeq maxSeq : Z) : Outcome (list Z) :=
  getSeqsNeedSync_loop fuel (wrap64 (syncedMaxSeq + 1)) maxSeq [].

Definition len {A : Type} (l : list A) : Z := Z.of_nat (length l).

(** The slice expression [s[lo:hi]]: it panics when [lo < 0] or [hi < lo].
    The upper bound is checked against the length; [splitSeqs] clips [hi]
    to the length before slicing, so the capacity beyond it is never
    asked for. *)
Definition slice {A : Type} (s : list A) (lo hi : Z) : Outcome (list A) :=
  if (0 <=? lo) && (lo <=? hi) && (hi <=? len s)
  then Returned (take (Z.to_nat (hi - lo)) (drop (Z.to_nat lo) s))
  else Panicked.

(** [splitSeqs]: [for i := 0; i < len(seqsNeedSync); i += split]. The sum
    [i + split] is taken only when [split < len(seqsNeedSync)] and
    [i < len(seqsNeedSync)], so it stays within [int]. *)
Fixpoint splitSeqs_loop (fuel : nat) (split : Z) (seqsNeedSync : list Z)
    (i : Z) (splitSeqs : list (list Z)) : Outcome (list (list Z)) :=
  if i <? len seqsNeedSync then
    match fuel with
    | O => OutOfFuel
    | S fuel' =>
        let end_ := i + split in
        let end_ := if end_ >? len seqsNeedSync then len seqsNeedSync else end_ in
        part ← slice seqsNeedSync i end_;
        splitSeqs_loop fuel' split seqsNeedSync (i + split) (splitSeqs ++ [part])
    end
  else Returned splitSeqs.

Definition splitSeqs (fuel : nat) (split : Z) (seqsNeedSync : list Z)
    : Outcome (list (list Z)) :=
  if len seqsNeedSync <=? split then Returned [seqsNeedSync]
  else splitSeqs_loop fuel split seqsNeedSync 0 [].

(** ** The fetch by seqs over the long connection *)

(** [GeneralWsResp]: the synchronizer reads [Data] only. *)
Record GeneralWsResp : Type := {
  Data : list Byte.byte
}.

Section range_fetcher.

(** The long connection manager is a state [Conn] and its request
    operation; [None] in the reply stands for a non-nil error. The decoder
    is [proto.Unmarshal] into a [PullMessageBySeqsResp]. The two constants
    are those of package [constant]. *)
Variable Conn : Type.
Variable SendReqWaitResp :
  Conn -> sdkws.PullMessageBySeqsReq -> Z -> Z -> string -> Conn * option GeneralWsResp.
Variable proto_Unmarshal : list Byte.byte -> option sdkws.PullMessageBySeqsResp.
Variable SplitPullMsgNum : Z.
Variable WSPullMsgBySeqList : Z.

(** The loop of [syncMsgBySeqs]: [for i := 0; i < len(seqsList); { ... }],
    one request per iteration. *)
Fixpoint syncMsgBySeqs_loop (fuel : nat) (m : MsgSyncer)
    (pullMsgReq : sdkws.PullMessageBySeqsReq) (seqsList : list (list Z))
    (i : Z) (c : Conn) (allMsgs : list sdkws.MsgData)
    : Outcome (Conn * list sdkws.MsgData) :=
  if i <? len seqsList then
    match fuel with
    | O => OutOfFuel
    | S fuel' =>
        match SendReqWaitResp c pullMsgReq WSPullMsgBySeqList retryTimes (loginUserID m) with
        | (c', None) =>
            syncMsgBySeqs_loop fuel' m pullMsgReq seqsList i c' allMsgs
        | (c', Some resp) =>
            match proto_Unmarshal (Data resp) with
            | None =>
                syncMsgBySeqs_loop fuel' m pullMsgReq seqsList (i + 1) c' allMsgs
            | Some pullMsgResp =>
                syncMsgBySeqs_loop fuel' m pullMsgReq seqsList (i + 1) c'
                  (allMsgs ++ sdkws.List pullMsgResp)
            end
        end
    end
  else Returned (c, allMsgs).

Definition syncMsgBySeqs (fuel : nat) (m : MsgSyncer) (sourceID : string)
    (sessionType : Z) (seqsNeedSync : list Z) (c : Conn)
    : Outcome (Conn * (list sdkws.MsgData * error)) :=
  let pullMsgReq := {| sdkws.UserID := loginUserID m |} in
  let split := SplitPullMsgNum in
  seqsList ← splitSeqs fuel split seqsNeedSync;
  r ← syncMsgBySeqs_loop fuel m pullMsgReq seqsList 0 c [];
  Returned (r.1, (r.2, None)).

End range_fetcher.

(** ** The replies a fetch gets

    Every request of one fetch is the same: the request holding the user
    id, the identifier [WSPullMsgBySeqList], the budget [retryTimes] and the
    user id. The connection is therefore asked the same question over and
    over; what follows names the replies it gives to the first [k] such
    requests, the state it is left in, how many of the replies are
    answers, and the messages a reply decodes to. *)

Section fetch_replies.

Variable Conn : Type.
Variable SendReqWaitResp :
  Conn -> sdkws.PullMessageBySeqsReq -> Z -> Z -> string -> Conn * option GeneralWsResp.
Variable proto_Unmarshal : list Byte.byte -> option sdkws.PullMessageBySeqsResp.
Variable WSPullMsgBySeqList : Z.

Definition request_of (m : MsgSyncer) (c : Conn) : Conn * option GeneralWsResp :=
  SendReqWaitResp c {| sdkws.UserID := loginUserID m |} WSPullMsgBySeqList
    retryTimes (loginUserID m).

Fixpoint replies (k : nat) (m : MsgSyncer) (c : Conn) : list (option GeneralWsResp) :=
  match k with
  | O => []
  | S k' => (request_of m c).2 :: replies k' m (request_of m c).1
  end.

Fixpoint conn_after (k : nat) (m : MsgSyncer) (c : Conn) : Conn :=
  match k with
  | O => c
  | S k' => conn_after k' m (request_of m c).1
  end.

Definition answers (rs : list (option GeneralWsResp)) : nat :=
  length (omap id rs).

Definition decoded (reply : option GeneralWsResp) : list sdkws.MsgData :=
  match reply with
  | Some resp =>
      match proto_Unmarshal (Data resp) with
      | Some pullMsgResp => sdkws.List pullMsgResp
      | None => []
      end
  | None => []
  end.

End fetch_replies.

(** ** Iteration over Go maps

    [for k, v := range m] visits every entry once, in an order the
    language leaves open. An iteration order is any function listing the
    entries of a map, and two loops that run in one call are each given an
    order of their own. The loops below update only the entry being
    visited, so each value they read is the one present when the loop
    started. *)

Record RangeOrder (A : Type) : Type := {
  range_of :> gmap string A -> list (string * A);
  range_of_perm : forall m, range_of m ≡ₚ map_to_list m
}.
Arguments range_of {A} _ _.
Arguments range_of_perm {A} _ _.

Definition range_by_key (A : Type) : RangeOrder A :=
  {| range_of := map_to_list;
     range_of_perm := fun m => reflexivity (map_to_list m) |}.

Definition range_by_key_backwards (A : Type) : RangeOrder A :=
  {| range_of := fun m => reverse (map_to_list m);
     range_of_perm := fun m => reverse_Permutation (map_to_list m) |}.

(** ** Catch-up engine *)

Module common.

(** [common.Cmd2Value.Value] is an [interface{}], here [Any]: the dynamic types the
    synchronizer asserts, the nil interface and any other type. A pointer
    payload may be the nil pointer, [None]. [CmdMaxSeqToMsgSync] and
    [PushMessages] are the declarations of [sdk_struct] and [sdkws]. *)
Inductive Any (CmdMaxSeqToMsgSync PushMessages : Type) : Type :=
| VNil
| VMsgData (p : option sdkws.MsgData)
| VSeqMap (newSeqMap : gmap string Seq)
| VCmdMaxSeqToMsgSync (p : CmdMaxSeqToMsgSync)
| VPushMessages (p : PushMessages)
| VOther.

Record Cmd2Value (CmdMaxSeqToMsgSync PushMessages : Type) : Type := {
  Cmd : constant.Cmd;
  Value : Any CmdMaxSeqToMsgSync PushMessages
}.

End common.

Arguments common.VNil {_ _}.
Arguments common.VMsgData {_ _} p.
Arguments common.VSeqMap {_ _} newSeqMap.
Arguments common.VCmdMaxSeqToMsgSync {_ _} p.
Arguments common.VPushMessages {_ _} p.
Arguments common.VOther {_ _}.
Arguments common.Build_Cmd2Value {_ _} Cmd Value.
Arguments common.Cmd {_ _} c.
Arguments common.Value {_ _} c.

Section synchronizer.

Variables CmdMaxSeqToMsgSync PushMessages : Type.
Variable range_synced : RangeOrder SyncedSeq.
Variable range_new : RangeOrder Seq.

(** The order of the deferred loop of [triggerReconnectFinished], which
    need not be the order of the loop that ran before it. *)
Variable range_finished : RangeOrder SyncedSeq.

(** The handlers [doConnected], [doMaxSeq] and [doPushMsg] of the
    synchronizer, called by [handlePushMsgAndEvent]. *)
Variable doConnected : MsgSyncer -> Outcome MsgSyncer.
Variable doMaxSeq : CmdMaxSeqToMsgSync -> MsgSyncer -> Outcome MsgSyncer.
Variable doPushMsg : PushMessages -> MsgSyncer -> Outcome MsgSyncer.

Abbreviation Cmd2Value := (common.Cmd2Value CmdMaxSeqToMsgSync PushMessages).
Abbreviation Any := (common.Any CmdMaxSeqToMsgSync PushMessages).

(** The type assertions [v.(T)], which panic on another dynamic type. *)
Definition assert_MsgData (v : Any) : Outcome (option sdkws.MsgData) :=
  match v with common.VMsgData p => Returned p | _ => Panicked end.

Definition assert_SeqMap (v : Any) : Outcome (gmap string Seq) :=
  match v with common.VSeqMap s => Returned s | _ => Panicked end.

Definition assert_CmdMaxSeqToMsgSync (v : Any) : Outcome CmdMaxSeqToMsgSync :=
  match v with common.VCmdMaxSeqToMsgSync p => Returned p | _ => Panicked end.

Definition assert_PushMessages (v : Any) : Outcome PushMessages :=
  match v with common.VPushMessages p => Returned p | _ => Panicked end.

(** A field read through a pointer, which panics on the nil pointer. *)
Definition deref {A : Type} (p : option A) : Outcome A :=
  match p with Some a => Returned a | None => Panicked end.

(** Body of the loop of [triggerReconnect] and [triggerReconnectFinished]. *)
Definition reconnect_step (m : MsgSyncer) (entry : string * SyncedSeq) : MsgSyncer :=
  let '(groupID, syncedSeq) := entry in
  if maxSeqSynced syncedSeq =? 0 then m
  else (sync groupID (sessionType syncedSeq) 0 (maxSeqSynced syncedSeq) m).1.

Definition triggerReconnect (m : MsgSyncer) : MsgSyncer :=
  foldl reconnect_step m (range_synced (syncedMaxSeqs m)).

Definition triggerReconnectFinished (m : MsgSyncer) : MsgSyncer :=
  foldl reconnect_step m (range_finished (syncedMaxSeqs m)).

(** Body of the loop of [triggerSync]. *)
Definition sync_step (m : MsgSyncer) (entry : string * SyncedSeq) : MsgSyncer :=
  let '(groupID, syncedSeq) := entry in
  if maxSeqSynced syncedSeq =? 0 then m
  else (sync groupID (sessionType syncedSeq) (maxSeqSynced syncedSeq)
          (wrap64 (maxSeqSynced syncedSeq + defaultPullNums)) m).1.

Definition triggerSync (m : MsgSyncer) : MsgSyncer :=
  foldl sync_step m (range_synced (syncedMaxSeqs m)).

(** [triggerSyncFinished] only writes a log line. *)
Definition triggerSyncFinished (m : MsgSyncer) : MsgSyncer := m.

(** Body of the loop of [compareSeqsAndTrigger]. *)
Definition compare_step (m : MsgSyncer) (entry : string * Seq) : MsgSyncer :=
  let '(sourceID, newSeq) := entry in
  match syncedMaxSeqs m !! sourceID with
  | Some syncedSeq =>
      if maxSeq newSeq >? maxSeqSynced syncedSeq
      then (sync sourceID (seq_sessionType newSeq) (maxSeqSynced syncedSeq) (maxSeq newSeq) m).1
      else m
  | None =>
      (sync sourceID (seq_sessionType newSeq) 0 (maxSeq newSeq) m).1
  end.

(** [compareSeqsAndTrigger]; the deferred call runs after [syncTimes++]. *)
Definition compareSeqsAndTrigger (cmd : Cmd2Value) (m : MsgSyncer) : Outcome MsgSyncer :=
  newSeqMap ← assert_SeqMap (common.Value cmd);
  let m1 :=
    match common.Cmd cmd with
    | constant.CmdInit => triggerSync m
    | constant.CmdReconnect => triggerReconnect m
    | _ => m
    end in
  let m2 := foldl compare_step m1 (range_new newSeqMap) in
  let m3 := set_syncTimes (fun n => wrap64 (n + 1)) m2 in
  Returned
    match common.Cmd cmd with
    | constant.CmdInit => triggerSyncFinished m3
    | constant.CmdReconnect => triggerReconnectFinished m3
    | _ => m3
    end.

(** ** Live push handler *)

(** The [switch cmd.Cmd] of [handlePushMsgAndEvent]. *)
Definition control_switch (cmd : Cmd2Value) (m : MsgSyncer) : Outcome MsgSyncer :=
  match common.Cmd cmd with
  | constant.CmdConnSuccesss => doConnected m
  | constant.CmdMaxSeq =>
      v ← assert_CmdMaxSeqToMsgSync (common.Value cmd); doMaxSeq v m
  | constant.CmdPushMsg =>
      v ← assert_PushMessages (common.Value cmd); doPushMsg v m
  | _ => Returned m
  end.

(** The part of [handlePushMsgAndEvent] after the switch, on the message
    [msg]. *)
Definition handle_msg (msg : sdkws.MsgData) (m : MsgSyncer) : MsgSyncer :=
  if sdkws.Seq msg =? 0 then triggerConversation [msg] m
  else if sdkws.Seq msg =? wrap64 (cursor m (sdkws.GroupID msg) + 1) then
    let m1 := triggerConversation [msg] m in
    let oldSeq := synced_at m1 (sdkws.GroupID msg) in
    let oldSeq := {| maxSeqSynced := sdkws.Seq msg; sessionType := sessionType oldSeq |} in
    set_syncedMaxSeqs (insert (sdkws.GroupID msg) oldSeq) m1
  else
    (sync (sdkws.GroupID msg) (sdkws.SessionType msg)
       (cursor m (sdkws.GroupID msg)) (sdkws.Seq msg) m).1.

Definition handlePushMsgAndEvent (cmd : Cmd2Value) (m : MsgSyncer) : Outcome MsgSyncer :=
  p ← assert_MsgData (common.Value cmd);
  m1 ← control_switch cmd m;
  msg ← deref p;
  Returned (handle_msg msg m1).

(** [DoListener] on the commands received before the context is done. *)
Fixpoint DoListener (cmds : list Cmd2Value) (m : MsgSyncer) : Outcome MsgSyncer :=
  match cmds with
  | [] => Returned m
  | cmd :: rest => m1 ← handlePushMsgAndEvent cmd m; DoListener rest m1
  end.

End synchronizer.

(** ** pkg/db: the super group table *)

Module db.

(** [model_struct.LocalGroup]: the columns read here. *)
Record LocalGroup : Type := {
  GroupID : string;
  GroupName : string
}.

(** [d.conn.Table(name).Find(&rows).Error]: the rows read and the error of
    the query. *)
Record DataBase : Type := {
  conn : string -> list LocalGroup * error
}.

Definition SuperGroupTableName : string := "super_groups".

Section super_group_model.

(** [utils.Wrap] of package [utils]. *)
Variable Wrap : error -> string -> error.

Definition GetJoinedSuperGroupList (d : DataBase) : list LocalGroup * error :=
  let '(groupList, err) := conn d SuperGroupTableName in
  let transfer := foldl (fun transfer v => transfer ++ [v]) [] groupList in
  (transfer, Wrap err "GetJoinedSuperGroupList failed ").

Definition GetJoinedSuperGroupIDList (d : DataBase) : list string * error :=
  match GetJoinedSuperGroupList d with
  | (_, Some err) => ([], Wrap (Some err) "")
  | (groupList, None) =>
      let groupIDList := foldl (fun ids v => ids ++ [GroupID v]) [] groupList in
      ([], None)
  end.

End super_group_model.

End db.

(** ** Loading the cursors from the data store *)

Section load.

(** The three queries of [db_interface.DataBase] that [loadSeq] makes, on
    the data store as it is during the call, and the session type constant
    of package [constant]. *)
Variable GetReadDiffusionGroupIDList : list string * error.
Variable GetSuperGroupNormalMsgSeq : string -> Z * error.
Variable GetSuperGroupAbnormalMsgSeq : string -> Z * error.
Variable SuperGroupChatType : Z.

(** The loop of [loadSeq] over the group ids; it returns at the first
    query that fails. *)
Fixpoint loadSeq_loop (groupIDs : list string) (m : MsgSyncer) : MsgSyncer * error :=
  match groupIDs with
  | [] => (m, None)
  | groupID :: rest =>
      match GetSuperGroupNormalMsgSeq groupID with
      | (_, Some err) => (m, Some err)
      | (nMaxSeq, None) =>
          match GetSuperGroupAbnormalMsgSeq groupID with
          | (_, Some err) => (m, Some err)
          | (aMaxSeq, None) =>
              let maxSeqSynced := if aMaxSeq >? nMaxSeq then aMaxSeq else nMaxSeq in
              loadSeq_loop rest
                (set_syncedMaxSeqs
                   (insert groupID {| maxSeqSynced := maxSeqSynced;
                                      sessionType := SuperGroupChatType |}) m)
          end
      end
  end.

Definition loadSeq (m : MsgSyncer) : MsgSyncer * error :=
  let m := set_syncedMaxSeqs (fun _ => ∅) m in
  match GetReadDiffusionGroupIDList with
  | (_, Some err) => (m, Some err)
  | (groupIDs, None) => loadSeq_loop groupIDs m
  end.

(** [NewMsgSyncer]: the syncer and the error it returns. The listener is
    started on the syncer in both cases. *)
Definition NewMsgSyncer (loginUserID : string) (syncTimes : Z) : MsgSyncer * error :=
  loadSeq {| loginUserID := loginUserID;
             syncedMaxSeqs := ∅;
             syncTimes := syncTimes;
             trace := [] |}.

End load.

(** ** Expected calls of the reconnect sweep

    What one entry of the cursor map contributes to the trace of a
    reconnect sweep: nothing at cursor 0, otherwise the fetch of the range
    from 0 (exclusive) to the cursor and the delivery of its result. *)
Definition reconnect_events (entry : string * SyncedSeq) : list Event :=
  if maxSeqSynced entry.2 =? 0 then []
  else [EvPull entry.1 (sessionType entry.2) 0 (maxSeqSynced entry.2);
        EvNewMsgCome []].

Definition add_trace (events : list Event) (m : MsgSyncer) : MsgSyncer :=
  {| loginUserID := loginUserID m;
     syncedMaxSeqs := syncedMaxSeqs m;
     syncTimes := syncTimes m;
     trace := trace m ++ events |}.

(** ** Sample values used in the examples below *)

Definition syncer_of (cursors : list (string * SyncedSeq)) : MsgSyncer :=
  {| loginUserID := "u1";
     syncedMaxSeqs := list_to_map cursors;
     syncTimes := 0;
     trace := [] |}.

Definition push_msg (id : string) (groupID : string) (seq : Z) : sdkws.MsgData :=
  {| sdkws.ClientMsgID := id;
     sdkws.GroupID := groupID;
     sdkws.SessionType := 3;
     sdkws.Seq := seq |}.

(** Handlers that return at once, for payload types without content. *)
Definition no_op_handler (m : MsgSyncer) : Outcome MsgSyncer := Returned m.
Definition no_op_handler1 (_ : unit) (m : MsgSyncer) : Outcome MsgSyncer := Returned m.

(** A fetcher that fails on every range. *)
Definition pull_fails (sourceID : string) (sessionType lo hi : Z)
    : list sdkws.MsgData * error :=
  ([], Some "timeout"%string).

(** A connection, kept as the number of requests it has seen, that answers
    the first request and fails on all later ones; one that answers every
    request; and a decoder that reads one message out of any data. *)
Definition conn_answers_once (c : nat) (req : sdkws.PullMessageBySeqsReq)
    (reqIdentifier retry : Z) (userID : string) : nat * option GeneralWsResp :=
  (S c, match c with O => Some {| Data := [] |} | S _ => None end).

Definition conn_answers (c : nat) (req : sdkws.PullMessageBySeqsReq)
    (reqIdentifier retry : Z) (userID : string) : nat * option GeneralWsResp :=
  (S c, Some {| Data := [] |}).

Definition conn_down (c : nat) (req : sdkws.PullMessageBySeqsReq)
    (reqIdentifier retry : Z) (userID : string) : nat * option GeneralWsResp :=
  (S c, None).

Definition conn_fails_twice (c : nat) (req : sdkws.PullMessageBySeqsReq)
    (reqIdentifier retry : Z) (userID : string) : nat * option GeneralWsResp :=
  (S c, match c with O | 1%nat => None | _ => Some {| Data := [] |} end).

Definition decode_one (data : list Byte.byte) : option sdkws.PullMessageBySeqsResp :=
  Some {| sdkws.List := [push_msg "c1" "g" 1] |}.

(** A table of two super groups, and a stand-in for [utils.Wrap] that keeps
    nil as nil. *)
Definition two_groups : db.DataBase :=
  {| db.conn := fun _ =>
       ([{| db.GroupID := "g1"; db.GroupName := "one" |};
         {| db.GroupID := "g2"; db.GroupName := "two" |}], None) |}.

Definition wrap_keeps_nil (err : error) (message : string) : error :=
  match err with
  | None => None
  | Some e => Some (message +:+ e)
  end.

(** A data store with the groups g1 and g2, where the abnormal seq of g2
    cannot be read. *)
Definition store_normal_seq (groupID : string) : Z * error :=
  (if String.eqb groupID "g1" then 7 else 4, None).


Definition store_abnormal_seq_ok (groupID : string) : Z * error :=
  (if String.eqb groupID "g1" then 9 else 2, None).

(** A command that carries a message under an empty command name, and a
    syncer that knows the conversations g at cursor 50 and h at cursor 7. *)
Definition push_cmd (msg : sdkws.MsgData) : common.Cmd2Value unit unit :=
  {| common.Cmd := constant.CmdOther ""; common.Value := common.VMsgData (Some msg) |}.

Definition syncer_g50_h7 : MsgSyncer :=
  syncer_of [("g"%string, {| maxSeqSynced := 50; sessionType := 3 |});
             ("h"%string, {| maxSeqSynced := 7; sessionType := 2 |})].

(** Two snapshots for [syncer_g50_h7]: one reporting g above its cursor
    and a conversation that is not known, one reporting g and h at or
    below their cursors. *)
Definition snapshot_ahead : gmap string Seq :=
  {[ "g"%string := {| maxSeq := 60; minSeq := 0; seq_sessionType := 3 |};
     "n"%string := {| maxSeq := 5; minSeq := 0; seq_sessionType := 2 |} ]}.

Definition snapshot_behind : gmap string Seq :=
  {[ "g"%string := {| maxSeq := 50; minSeq := 0; seq_sessionType := 3 |};
     "h"%string := {| maxSeq := 3; minSeq := 0; seq_sessionType := 2 |} ]}.

Definition snapshot_cmd (name : constant.Cmd) (newSeqMap : gmap string Seq)
    : common.Cmd2Value unit unit :=
  {| common.Cmd := name; common.Value := common.VSeqMap newSeqMap |}.

(** * Properties *)

(** ** Machine integers *)

Lemma wrap64_id z : is_int64 z -> wrap64 z = z.
Proof.
  unfold is_int64, wrap64, min_int64, max_int64. intros H.
  rewrite Z.mod_small; lia.
Qed.

Lemma wrap64_is_int64 z : is_int64 (wrap64 z).
Proof.
  unfold is_int64, wrap64, min_int64, max_int64.
  pose proof (Z.mod_pos_bound (z + 2 ^ 63) (2 ^ 64)). lia.
Qed.

(** ** [sync] and its fetcher *)

Lemma sync_with_eq pull sourceID ty lo hi m :
  sync_with pull sourceID ty lo hi m =
  match pull sourceID ty lo hi with
  | (_, Some err) => (emit (EvPull sourceID ty lo hi) m, Some err)
  | (msgs, None) =>
      (set_syncedMaxSeqs (insert sourceID {| maxSeqSynced := hi; sessionType := ty |})
         (triggerConversation msgs (emit (EvPull sourceID ty lo hi) m)), None)
  end.
Proof.
  unfold sync_with, syncAndTriggerMsgs_with.
  destruct (pull sourceID ty lo hi) as [msgs [err|]]; reflexivity.
Qed.

Lemma sync_eq sourceID ty lo hi m :
  sync sourceID ty lo hi m =
  ({| loginUserID := loginUserID m;
      syncedMaxSeqs :=
        <[sourceID := {| maxSeqSynced := hi; sessionType := ty |}]> (syncedMaxSeqs m);
      syncTimes := syncTimes m;
      trace := trace m ++ [EvPull sourceID ty lo hi; EvNewMsgCome []] |}, None).
Proof.
  unfold sync. rewrite sync_with_eq. simpl.
  unfold set_syncedMaxSeqs, triggerConversation, emit. simpl.
  by rewrite <- app_assoc.
Qed.

(** C8. [syncMsgBySeqsInterval] returns the empty list and a nil error on
    every input; hence every call of [sync] returns a nil error, hands one
    empty list to the conversation channel after the one call of the
    fetcher, and sets the cursor of [sourceID] to [maxSeq] (and its session
    type to [sessionType]) whatever the cursor was. *)
Theorem sync_always_succeeds_with_empty_batch
    (sourceID : string) (sessionType syncedMaxSeq maxSeq : Z) (m : MsgSyncer) :
  syncMsgBySeqsInterval sourceID sessionType syncedMaxSeq maxSeq = ([], None) /\
  (sync sourceID sessionType syncedMaxSeq maxSeq m).2 = None /\
  trace (sync sourceID sessionType syncedMaxSeq maxSeq m).1 =
    trace m ++ [EvPull sourceID sessionType syncedMaxSeq maxSeq; EvNewMsgCome []] /\
  syncedMaxSeqs (sync sourceID sessionType syncedMaxSeq maxSeq m).1 =
    <[sourceID := {| maxSeqSynced := maxSeq; sessionType := sessionType |}]>
      (syncedMaxSeqs m) /\
  cursor (sync sourceID sessionType syncedMaxSeq maxSeq m).1 sourceID = maxSeq.
Proof.
  rewrite sync_eq. simpl. repeat split.
  unfold cursor, synced_at. simpl. by rewrite lookup_insert_eq.
Qed.

(** C4. For every fetcher and every call of [sync]: when the fetch returns
    a nil error, [sync] returns nil and the entry of [sourceID] becomes
    exactly [maxSeq] with the given session type, whatever list the fetch
    returned; when the fetch returns an error, [sync] returns that error
    and the cursor map is the one before the call. *)
Theorem sync_sets_cursor_exactly_or_not_at_all
    (pull : string -> Z -> Z -> Z -> list sdkws.MsgData * error)
    (sourceID : string) (sessionType syncedMaxSeq maxSeq : Z) (m : MsgSyncer) :
  match (pull sourceID sessionType syncedMaxSeq maxSeq).2 with
  | None =>
      (sync_with pull sourceID sessionType syncedMaxSeq maxSeq m).2 = None /\
      syncedMaxSeqs (sync_with pull sourceID sessionType syncedMaxSeq maxSeq m).1 =
        <[sourceID := {| maxSeqSynced := maxSeq; sessionType := sessionType |}]>
          (syncedMaxSeqs m) /\
      cursor (sync_with pull sourceID sessionType syncedMaxSeq maxSeq m).1 sourceID = maxSeq
  | Some err =>
      (sync_with pull sourceID sessionType syncedMaxSeq maxSeq m).2 = Some err /\
      syncedMaxSeqs (sync_with pull sourceID sessionType syncedMaxSeq maxSeq m).1 =
        syncedMaxSeqs m /\
      forall key, cursor (sync_with pull sourceID sessionType syncedMaxSeq maxSeq m).1 key =
                  cursor m key
  end.
Proof.
  rewrite sync_with_eq.
  destruct (pull sourceID sessionType syncedMaxSeq maxSeq) as [msgs [err|]]; simpl.
  - repeat split.
  - repeat split. unfold cursor, synced_at. simpl. by rewrite lookup_insert_eq.
Qed.

(** The two arms of C4 on a cursor at 4: a fetch that fails leaves 4, the
    fetch of the source moves it to 10. *)
Example sync_failure_and_success_at_4 :
  cursor (sync_with pull_fails "g" 3 4 10
            (syncer_of [("g"%string, {| maxSeqSynced := 4; sessionType := 3 |})])).1 "g" = 4 /\
  cursor (sync "g" 3 4 10
            (syncer_of [("g"%string, {| maxSeqSynced := 4; sessionType := 3 |})])).1 "g" = 10.
Proof. split; reflexivity. Qed.

(** ** Enumeration of the pending seqs *)

Lemma getSeqsNeedSync_loop_spec maxSeq :
  maxSeq < max_int64 ->
  forall fuel i seqs,
    min_int64 <= i <= max_int64 ->
    (Z.to_nat (maxSeq + 1 - i) <= fuel)%nat ->
    getSeqsNeedSync_loop fuel i maxSeq seqs = Returned (seqs ++ seqZ i (maxSeq + 1 - i)).
Proof.
  intros Hmax fuel. induction fuel as [|fuel IH]; intros i seqs Hi Hfuel.
  - simpl. destruct (Z.leb_spec i maxSeq); [lia|].
    rewrite seqZ_nil by lia. by rewrite app_nil_r.
  - simpl. destruct (Z.leb_spec i maxSeq) as [Hle|Hgt].
    + assert (Hw : wrap64 (i + 1) = i + 1).
      { apply wrap64_id. unfold is_int64. lia. }
      rewrite Hw, IH by lia.
      rewrite (seqZ_cons i) by lia. rewrite <- app_assoc. simpl.
      repeat f_equal; lia.
    + rewrite seqZ_nil by lia. by rewrite app_nil_r.
Qed.

Lemma getSeqsNeedSync_spec fuel syncedMaxSeq maxSeq :
  min_int64 <= syncedMaxSeq < max_int64 ->
  maxSeq < max_int64 ->
  (Z.to_nat (maxSeq - syncedMaxSeq) <= fuel)%nat ->
  getSeqsNeedSync fuel syncedMaxSeq maxSeq =
    Returned (seqZ (syncedMaxSeq + 1) (maxSeq - syncedMaxSeq)).
Proof.
  intros Hlo Hhi Hfuel. unfold getSeqsNeedSync.
  rewrite wrap64_id by (unfold is_int64; lia).
  rewrite getSeqsNeedSync_loop_spec by lia.
  simpl. f_equal. f_equal. lia.
Qed.

(** ** Sharding *)

Lemma len_nonneg {A} (l : list A) : 0 <= len l.
Proof. unfold len. lia. Qed.

Lemma slice_in_range {A} (s : list A) lo hi :
  0 <= lo <= hi -> hi <= len s ->
  slice s lo hi = Returned (take (Z.to_nat (hi - lo)) (drop (Z.to_nat lo) s)).
Proof.
  intros [H1 H2] H3. unfold slice.
  destruct (Z.leb_spec 0 lo); [|lia].
  destruct (Z.leb_spec lo hi); [|lia].
  destruct (Z.leb_spec hi (len s)); [|lia].
  reflexivity.
Qed.

(** What the loop of [splitSeqs] adds from index [i] on: the rest of the
    list cut into pieces of [split] elements, the last one holding what
    remains. *)
Lemma splitSeqs_loop_spec split (l : list Z) :
  0 < split ->
  forall fuel i acc,
    0 <= i ->
    (Z.to_nat (len l - i) <= fuel)%nat ->
    exists parts,
      splitSeqs_loop fuel split l i acc = Returned (acc ++ parts) /\
      concat parts = drop (Z.to_nat i) l /\
      (i < len l -> parts <> []) /\
      (forall j p, parts !! j = Some p ->
         0 < len p <= split /\ (S j < length parts -> len p = split)%nat).
Proof.
  intros Hsplit fuel. induction fuel as [|fuel IH]; intros i acc Hi Hfuel.
  - exists []. simpl. destruct (Z.ltb_spec i (len l)); [lia|].
    rewrite app_nil_r. repeat split; try done.
    + rewrite drop_ge; [done|]. unfold len in *. lia.
    + lia.
  - simpl. destruct (Z.ltb_spec i (len l)) as [Hlt|Hge].
    2:{ exists []. rewrite app_nil_r. repeat split; try done.
        - rewrite drop_ge; [done|]. unfold len in *. lia.
        - lia. }
    set (end_ := if i + split >? len l then len l else i + split).
    assert (Hend : i < end_ <= len l /\ end_ - i <= split).
    { subst end_. destruct (Z.gtb_spec (i + split) (len l)); lia. }
    rewrite slice_in_range by lia. simpl.
    destruct (IH (i + split)
                (acc ++ [take (Z.to_nat (end_ - i)) (drop (Z.to_nat i) l)]))
      as (parts & Hrun & Hcat & Hne & Hparts); [lia|lia|].
    exists (take (Z.to_nat (end_ - i)) (drop (Z.to_nat i) l) :: parts).
    rewrite Hrun, <- app_assoc. simpl. split; [done|]. split; [|split; [done|]].
    + rewrite Hcat.
      assert (Hd : drop (Z.to_nat (i + split)) l =
                   drop (Z.to_nat (end_ - i)) (drop (Z.to_nat i) l)).
      { rewrite drop_drop. subst end_.
        destruct (Z.gtb_spec (i + split) (len l)).
        - rewrite !drop_ge; [done| |]; unfold len in *; lia.
        - f_equal. lia. }
      rewrite Hd. apply take_drop.
    + intros [|j] p Hp; simpl in Hp.
      * injection Hp as <-.
        assert (Hlen : len (take (Z.to_nat (end_ - i)) (drop (Z.to_nat i) l)) = end_ - i).
        { unfold len in *. rewrite length_take, length_drop. lia. }
        rewrite Hlen. split; [lia|].
        simpl. intros Hmore. subst end_.
        destruct (Z.gtb_spec (i + split) (len l)) as [Hover|]; [|lia].
        destruct parts as [|q parts]; [simpl in Hmore; lia|].
        exfalso. assert (Hq : concat (q :: parts) = []).
        { rewrite Hcat. apply drop_ge. unfold len in *. lia. }
        destruct (Hparts 0%nat q eq_refl) as [Hpos _].
        simpl in Hq. apply app_eq_nil in Hq as [-> _]. unfold len in Hpos. simpl in Hpos. lia.
      * destruct (Hparts j p Hp) as [Hb Hfull]. split; [done|].
        simpl. intros. apply Hfull. lia.
Qed.

Lemma splitSeqs_spec fuel split (l : list Z) :
  0 < split ->
  (length l <= fuel)%nat ->
  exists shards,
    splitSeqs fuel split l = Returned shards /\
    concat shards = l /\
    shards <> [] /\
    (forall j p, shards !! j = Some p ->
       len p <= split /\ (l <> [] -> 0 < len p) /\
       (S j < length shards -> len p = split)%nat).
Proof.
  intros Hsplit Hfuel. unfold splitSeqs.
  destruct (Z.leb_spec (len l) split) as [Hle|Hgt].
  - exists [l]. simpl. rewrite app_nil_r.
    split; [done|]. split; [done|]. split; [done|].
    intros [|j] q Hq; simpl in Hq; [|done]. injection Hq as <-.
    split; [done|]. split.
    + destruct l; [done|]. unfold len. simpl. lia.
    + simpl. lia.
  - destruct (splitSeqs_loop_spec split l Hsplit fuel 0 []) as
      (parts & Hrun & Hcat & Hne & Hparts); [lia|unfold len; lia|].
    exists parts. simpl in Hrun. rewrite Hrun.
    split; [done|]. split; [by rewrite Hcat|]. split; [apply Hne; lia|].
    intros j q Hq. destruct (Hparts j q Hq) as [Hb Hfull].
    split; [lia|]. split; [lia|done].
Qed.

(** C7. With both bounds below the largest [int64] and enough iterations,
    [getSeqsNeedSync low high] returns [low+1, ..., high] in ascending
    order, the empty list when [low >= high]; and for a positive shard size
    [splitSeqs] returns shards whose concatenation is that list, every
    shard but the last of exactly the shard size and the last one no
    larger (and not empty unless the list is). *)
Theorem getSeqsNeedSync_then_splitSeqs
    (low high split : Z) (fuel : nat) :
  min_int64 <= low < max_int64 ->
  high < max_int64 ->
  0 < split ->
  (Z.to_nat (high - low) <= fuel)%nat ->
  exists seqs shards,
    getSeqsNeedSync fuel low high = Returned seqs /\
    seqs = seqZ (low + 1) (high - low) /\
    (low >= high -> seqs = []) /\
    (forall x, x ∈ seqs <-> low + 1 <= x <= high) /\
    (forall i x, seqs !! i = Some x -> x = low + 1 + Z.of_nat i) /\
    splitSeqs fuel split seqs = Returned shards /\
    concat shards = seqs /\
    shards <> [] /\
    (forall j p, shards !! j = Some p ->
       len p <= split /\ (seqs <> [] -> 0 < len p) /\
       (S j < length shards -> len p = split)%nat).
Proof.
  intros Hlow Hhigh Hsplit Hfuel.
  destruct (splitSeqs_spec fuel split (seqZ (low + 1) (high - low)) Hsplit)
    as (shards & Hrun & Hcat & Hne & Hshards).
  { by rewrite length_seqZ. }
  exists (seqZ (low + 1) (high - low)), shards.
  split; [by apply getSeqsNeedSync_spec|]. split; [done|].
  split; [intros; apply seqZ_nil; lia|].
  split; [intros x; rewrite elem_of_seqZ; lia|].
  split; [intros i x Hx; apply lookup_seqZ in Hx; lia|].
  done.
Qed.

(** Seven pending seqs and shard size 3: shards of sizes 3, 3 and 1, in
    that order. *)
Lemma getSeqsNeedSync_then_splitSeqs_7_by_3 :
  exists seqs shards,
    getSeqsNeedSync 7 0 7 = Returned seqs /\
    seqs = [1; 2; 3; 4; 5; 6; 7] /\
    splitSeqs 7 3 seqs = Returned shards /\
    shards = [[1; 2; 3]; [4; 5; 6]; [7]] /\
    length <$> shards = [3; 3; 1]%nat.
Proof.
  destruct (getSeqsNeedSync_then_splitSeqs 0 7 3 7)
    as (seqs & shards & Hseqs & Heq & _ & _ & _ & Hsplit & _).
  - unfold min_int64, max_int64. lia.
  - unfold max_int64. lia.
  - lia.
  - lia.
  - exists seqs, shards. subst seqs.
    change (seqZ (0 + 1) (7 - 0)) with [1; 2; 3; 4; 5; 6; 7] in *.
    vm_compute in Hsplit. injection Hsplit as <-.
    repeat split; done.
Defined.

(** ** Live push handler *)

Section push_handler_properties.

Context {CmdMaxSeqToMsgSync PushMessages : Type}.
Variable doConnected : MsgSyncer -> Outcome MsgSyncer.
Variable doMaxSeq : CmdMaxSeqToMsgSync -> MsgSyncer -> Outcome MsgSyncer.
Variable doPushMsg : PushMessages -> MsgSyncer -> Outcome MsgSyncer.

Abbreviation Cmd2Value := (common.Cmd2Value CmdMaxSeqToMsgSync PushMessages).
Abbreviation handle := (handlePushMsgAndEvent _ _ doConnected doMaxSeq doPushMsg).
Abbreviation switch := (control_switch _ _ doConnected doMaxSeq doPushMsg).

(** Once the payload is a message, the switch can only run [doConnected]
    or fall through: the other two arms assert a second dynamic type on
    the same payload. *)
Lemma control_switch_on_a_message (cmd : Cmd2Value) p m :
  common.Value cmd = common.VMsgData p ->
  switch cmd m =
    match common.Cmd cmd with
    | constant.CmdConnSuccesss => doConnected m
    | constant.CmdMaxSeq | constant.CmdPushMsg => Panicked
    | _ => Returned m
    end.
Proof.
  intros Hv. unfold control_switch. rewrite Hv.
  destruct (common.Cmd cmd); reflexivity.
Qed.

Lemma handle_on_a_message (cmd : Cmd2Value) msg m m1 :
  common.Value cmd = common.VMsgData (Some msg) ->
  switch cmd m = Returned m1 ->
  handle cmd m = Returned (handle_msg msg m1).
Proof.
  intros Hv Hs. unfold handlePushMsgAndEvent. rewrite Hv. simpl.
  unfold mbind, Outcome_bind. rewrite Hs. reflexivity.
Qed.

(** C9. [handlePushMsgAndEvent] asserts the payload to be a
    [*sdkws.MsgData] before it looks at the command name: it panics on
    every command whose payload has another dynamic type, and, the
    handlers of [CmdMaxSeq] and [CmdPushMsg] asserting yet another type on
    the same payload, on every command of these two names whatever it
    carries. *)
Theorem handlePushMsgAndEvent_panics_on_other_payloads (cmd : Cmd2Value) (m : MsgSyncer) :
  (forall p, common.Value cmd <> common.VMsgData p) \/
  common.Cmd cmd = constant.CmdMaxSeq \/
  common.Cmd cmd = constant.CmdPushMsg ->
  handle cmd m = Panicked.
Proof.
  unfold handlePushMsgAndEvent, control_switch.
  destruct cmd as [name v]. simpl.
  intros [Hv | [-> | ->]].
  - destruct v; try reflexivity. by destruct (Hv p).
  - destruct v; reflexivity.
  - destruct v; reflexivity.
Qed.

(** X21. A command that carries the message [msg] and gets past the switch
    with state [m1]: when [msg.Seq] is not 0 and is the cursor of its
    conversation plus one, the handler hands the one-element list [[msg]]
    to the conversation channel, sets the cursor to [msg.Seq] keeping the
    stored session type, and calls no fetch. *)
Theorem push_of_next_seq_takes_fast_path (cmd : Cmd2Value) (msg : sdkws.MsgData)
    (m m1 : MsgSyncer) :
  common.Value cmd = common.VMsgData (Some msg) ->
  switch cmd m = Returned m1 ->
  is_int64 (sdkws.Seq msg) ->
  sdkws.Seq msg <> 0 ->
  sdkws.Seq msg = cursor m1 (sdkws.GroupID msg) + 1 ->
  exists m2,
    handle cmd m = Returned m2 /\
    trace m2 = trace m1 ++ [EvNewMsgCome [msg]] /\
    cursor m2 (sdkws.GroupID msg) = sdkws.Seq msg /\
    syncedMaxSeqs m2 =
      <[sdkws.GroupID msg :=
          {| maxSeqSynced := sdkws.Seq msg;
             sessionType := sessionType (synced_at m1 (sdkws.GroupID msg)) |}]>
        (syncedMaxSeqs m1).
Proof.
  intros Hv Hs Hint Hnz Hnext.
  exists (handle_msg msg m1). split; [by apply handle_on_a_message|].
  unfold handle_msg.
  destruct (Z.eqb_spec (sdkws.Seq msg) 0) as [|_]; [done|].
  rewrite <- Hnext, (wrap64_id _ Hint), Z.eqb_refl. simpl.
  split; [done|]. split; [|done].
  unfold cursor, synced_at. simpl. by rewrite lookup_insert_eq.
Qed.

(** A message whose seq is neither 0 nor the cursor plus one goes to
    [sync], which ends with the cursor at [msg.Seq], above or below the
    former cursor. *)
Lemma push_of_other_seq_overwrites_cursor (cmd : Cmd2Value) (msg : sdkws.MsgData)
    (m m1 : MsgSyncer) :
  common.Value cmd = common.VMsgData (Some msg) ->
  switch cmd m = Returned m1 ->
  sdkws.Seq msg <> 0 ->
  sdkws.Seq msg <> wrap64 (cursor m1 (sdkws.GroupID msg) + 1) ->
  exists m2,
    handle cmd m = Returned m2 /\
    cursor m2 (sdkws.GroupID msg) = sdkws.Seq msg /\
    trace m2 = trace m1 ++
      [EvPull (sdkws.GroupID msg) (sdkws.SessionType msg)
         (cursor m1 (sdkws.GroupID msg)) (sdkws.Seq msg);
       EvNewMsgCome []].
Proof.
  intros Hv Hs Hnz Hne.
  exists (handle_msg msg m1). split; [by apply handle_on_a_message|].
  unfold handle_msg.
  destruct (Z.eqb_spec (sdkws.Seq msg) 0) as [|_]; [done|].
  destruct (Z.eqb_spec (sdkws.Seq msg) (wrap64 (cursor m1 (sdkws.GroupID msg) + 1)))
    as [|_]; [done|].
  rewrite sync_eq. simpl. split; [|done].
  unfold cursor, synced_at. simpl. by rewrite lookup_insert_eq.
Qed.

End push_handler_properties.

Lemma handlePushMsgAndEvent_panics_on_a_seq_snapshot :
  handlePushMsgAndEvent unit unit no_op_handler no_op_handler1 no_op_handler1
    {| common.Cmd := constant.CmdMaxSeq;
       common.Value := common.VSeqMap {[ "g"%string := {| maxSeq := 10; minSeq := 0; seq_sessionType := 3 |} ]} |}
    (syncer_of []) = Panicked /\
  handlePushMsgAndEvent unit unit no_op_handler no_op_handler1 no_op_handler1
    {| common.Cmd := constant.CmdPushMsg; common.Value := common.VPushMessages () |}
    (syncer_of []) = Panicked /\
  handlePushMsgAndEvent unit unit no_op_handler no_op_handler1 no_op_handler1
    {| common.Cmd := constant.CmdPushMsg;
       common.Value := common.VMsgData (Some (push_msg "c51" "g" 51)) |}
    (syncer_of []) = Panicked.
Proof.
  split; [|split].
  - apply handlePushMsgAndEvent_panics_on_other_payloads. left. simpl. discriminate.
  - apply handlePushMsgAndEvent_panics_on_other_payloads. left. simpl. discriminate.
  - apply handlePushMsgAndEvent_panics_on_other_payloads. right. right. reflexivity.
Defined.

Lemma push_of_next_seq_takes_fast_path_at_50 :
  exists m2,
    handlePushMsgAndEvent unit unit no_op_handler no_op_handler1 no_op_handler1
      {| common.Cmd := constant.CmdOther "";
         common.Value := common.VMsgData (Some (push_msg "c51" "g" 51)) |}
      (syncer_of [("g"%string, {| maxSeqSynced := 50; sessionType := 3 |})]) = Returned m2 /\
    trace m2 = [EvNewMsgCome [push_msg "c51" "g" 51]] /\
    cursor m2 "g" = 51.
Proof.
  destruct (push_of_next_seq_takes_fast_path no_op_handler no_op_handler1 no_op_handler1
              {| common.Cmd := constant.CmdOther "";
                 common.Value := common.VMsgData (Some (push_msg "c51" "g" 51)) |}
              (push_msg "c51" "g" 51)
              (syncer_of [("g"%string, {| maxSeqSynced := 50; sessionType := 3 |})])
              (syncer_of [("g"%string, {| maxSeqSynced := 50; sessionType := 3 |})]))
    as (m2 & Hrun & Htrace & Hcursor & _).
  - reflexivity.
  - reflexivity.
  - unfold is_int64, min_int64, max_int64. simpl. lia.
  - simpl. lia.
  - reflexivity.
  - exists m2. split; [exact Hrun|]. split; [exact Htrace|exact Hcursor].
Defined.

(** C5, at a cursor of 50 and the message of seq 51 pushed under the
    command name [CmdPushMsg]. The payload passes the assertion to
    [*sdkws.MsgData]; the arm of [CmdPushMsg] then asserts the same payload
    to be a [*sdkws.PushMessages] and the handler panics: nothing is
    delivered, the cursor is not written, and the listener ends. The fast
    path is not reached. *)
Theorem push_of_seq_51_under_CmdPushMsg_panics
    (CmdMaxSeqToMsgSync PushMessages : Type)
    (doConnected : MsgSyncer -> Outcome MsgSyncer)
    (doMaxSeq : CmdMaxSeqToMsgSync -> MsgSyncer -> Outcome MsgSyncer)
    (doPushMsg : PushMessages -> MsgSyncer -> Outcome MsgSyncer) :
  cursor (syncer_of [("g"%string, {| maxSeqSynced := 50; sessionType := 3 |})]) "g" = 50 /\
  sdkws.Seq (push_msg "c51" "g" 51) = 50 + 1 /\
  handlePushMsgAndEvent _ _ doConnected doMaxSeq doPushMsg
    {| common.Cmd := constant.CmdPushMsg;
       common.Value := common.VMsgData (Some (push_msg "c51" "g" 51)) |}
    (syncer_of [("g"%string, {| maxSeqSynced := 50; sessionType := 3 |})]) = Panicked /\
  DoListener _ _ doConnected doMaxSeq doPushMsg
    [{| common.Cmd := constant.CmdPushMsg;
        common.Value := common.VMsgData (Some (push_msg "c51" "g" 51)) |}]
    (syncer_of [("g"%string, {| maxSeqSynced := 50; sessionType := 3 |})]) = Panicked.
Proof. repeat split. Qed.

(** C1, at a cursor of 10 and a pushed message of seq 3. The message is
    neither unordered nor the next one, so it goes to [sync] with the range
    from 10 to 3; the fetch returns nothing and the cursor is written as 3. *)
Theorem push_of_seq_3_at_cursor_10_lowers_cursor
    (CmdMaxSeqToMsgSync PushMessages : Type)
    (doConnected : MsgSyncer -> Outcome MsgSyncer)
    (doMaxSeq : CmdMaxSeqToMsgSync -> MsgSyncer -> Outcome MsgSyncer)
    (doPushMsg : PushMessages -> MsgSyncer -> Outcome MsgSyncer) :
  cursor (syncer_of [("g"%string, {| maxSeqSynced := 10; sessionType := 3 |})]) "g" = 10 /\
  exists m2,
    handlePushMsgAndEvent _ _ doConnected doMaxSeq doPushMsg
      {| common.Cmd := constant.CmdOther "";
         common.Value := common.VMsgData (Some (push_msg "c3" "g" 3)) |}
      (syncer_of [("g"%string, {| maxSeqSynced := 10; sessionType := 3 |})]) = Returned m2 /\
    DoListener _ _ doConnected doMaxSeq doPushMsg
      [{| common.Cmd := constant.CmdOther "";
          common.Value := common.VMsgData (Some (push_msg "c3" "g" 3)) |}]
      (syncer_of [("g"%string, {| maxSeqSynced := 10; sessionType := 3 |})]) = Returned m2 /\
    cursor m2 "g" = 3 /\
    trace m2 = [EvPull "g" 3 10 3; EvNewMsgCome []].
Proof.
  split; [reflexivity|].
  destruct (push_of_other_seq_overwrites_cursor doConnected doMaxSeq doPushMsg
              {| common.Cmd := constant.CmdOther "";
                 common.Value := common.VMsgData (Some (push_msg "c3" "g" 3)) |}
              (push_msg "c3" "g" 3)
              (syncer_of [("g"%string, {| maxSeqSynced := 10; sessionType := 3 |})])
              (syncer_of [("g"%string, {| maxSeqSynced := 10; sessionType := 3 |})]))
    as (m2 & Hrun & Hcursor & Htrace); try reflexivity.
  - simpl. lia.
  - change (cursor _ _) with 10. simpl. vm_compute. discriminate.
  - exists m2. split; [exact Hrun|]. split; [|split; [exact Hcursor|exact Htrace]].
    cbn [DoListener]. rewrite Hrun. reflexivity.
Qed.

(** ** Catch-up engine *)

Lemma add_trace_nil m : add_trace [] m = m.
Proof. destruct m. unfold add_trace. simpl. by rewrite app_nil_r. Qed.

Lemma add_trace_app e1 e2 m : add_trace e2 (add_trace e1 m) = add_trace (e1 ++ e2) m.
Proof. unfold add_trace. simpl. by rewrite <- app_assoc. Qed.

(** A sweep over entries that are those of the cursor map rewrites each
    visited entry with its own value: only the trace changes. *)
Lemma reconnect_fold (entries : list (string * SyncedSeq)) :
  forall m,
    (forall k s, (k, s) ∈ entries -> syncedMaxSeqs m !! k = Some s) ->
    foldl reconnect_step m entries = add_trace (flat_map reconnect_events entries) m.
Proof.
  induction entries as [|[k s] entries IH]; intros m Hin.
  - simpl. by rewrite add_trace_nil.
  - change (foldl reconnect_step m ((k, s) :: entries))
      with (foldl reconnect_step (reconnect_step m (k, s)) entries).
    change (flat_map reconnect_events ((k, s) :: entries))
      with (reconnect_events (k, s) ++ flat_map reconnect_events entries).
    assert (Hk : syncedMaxSeqs m !! k = Some s) by (apply Hin; left).
    assert (Hstep : reconnect_step m (k, s) = add_trace (reconnect_events (k, s)) m).
    { unfold reconnect_step, reconnect_events. cbn [fst snd].
      destruct (Z.eqb_spec (maxSeqSynced s) 0) as [Hz|Hnz].
      - by rewrite add_trace_nil.
      - rewrite sync_eq. cbn [fst]. unfold add_trace. f_equal.
        apply insert_id. rewrite Hk. by destruct s. }
    rewrite Hstep, IH.
    + apply add_trace_app.
    + intros k' s' H'. cbn [syncedMaxSeqs add_trace]. apply Hin. by right.
Qed.

Lemma range_lookup (order : RangeOrder SyncedSeq) (cursors : gmap string SyncedSeq) k s :
  (k, s) ∈ range_of order cursors <-> cursors !! k = Some s.
Proof. rewrite (range_of_perm order cursors). apply elem_of_map_to_list. Qed.

Lemma triggerReconnect_eq (order : RangeOrder SyncedSeq) m :
  triggerReconnect order m =
    add_trace (flat_map reconnect_events (range_of order (syncedMaxSeqs m))) m.
Proof.
  unfold triggerReconnect. apply reconnect_fold.
  intros k s. apply range_lookup.
Qed.

Lemma triggerReconnectFinished_eq (order : RangeOrder SyncedSeq) m :
  triggerReconnectFinished order m =
    add_trace (flat_map reconnect_events (range_of order (syncedMaxSeqs m))) m.
Proof.
  unfold triggerReconnectFinished. apply reconnect_fold.
  intros k s. apply range_lookup.
Qed.

Lemma sync_extends_trace sourceID ty lo hi m :
  exists rest, trace (sync sourceID ty lo hi m).1 = trace m ++ rest.
Proof. rewrite sync_eq. simpl. eauto. Qed.

Lemma compare_fold_extends_trace (entries : list (string * Seq)) :
  forall m, exists rest, trace (foldl compare_step m entries) = trace m ++ rest.
Proof.
  induction entries as [|[k s] entries IH]; intros m.
  - exists []. simpl. by rewrite app_nil_r.
  - change (foldl compare_step m ((k, s) :: entries))
      with (foldl compare_step (compare_step m (k, s)) entries).
    assert (Hstep : exists r1, trace (compare_step m (k, s)) = trace m ++ r1).
    { unfold compare_step. destruct (syncedMaxSeqs m !! k) as [old|].
      - destruct (maxSeq s >? maxSeqSynced old).
        + apply sync_extends_trace.
        + exists []. by rewrite app_nil_r.
      - apply sync_extends_trace. }
    destruct Hstep as [r1 Hr1]. destruct (IH (compare_step m (k, s))) as [r2 Hr2].
    exists (r1 ++ r2). rewrite Hr2, Hr1. by rewrite <- app_assoc.
Qed.

Section catch_up_properties.

Context {CmdMaxSeqToMsgSync PushMessages : Type}.
Variable range_synced : RangeOrder SyncedSeq.
Variable range_new : RangeOrder Seq.
Variable range_finished : RangeOrder SyncedSeq.

Abbreviation compare :=
  (compareSeqsAndTrigger CmdMaxSeqToMsgSync PushMessages
     range_synced range_new range_finished).

(** C6. A reconnect sweep ([triggerReconnect] and, with the same body,
    [triggerReconnectFinished]), in whatever order it visits the cursor
    map, leaves the cursors as they are and adds to the trace, for each
    entry in the order of the visit, nothing when its cursor is 0 and
    otherwise one fetch of the range from 0 (exclusive) to the cursor, that
    is seqs 1 to [maxSeqSynced]. So every conversation with a non-zero
    cursor gets that fetch and no other conversation gets one. Under a
    [CmdReconnect] command the engine starts with such a sweep, and with an
    empty snapshot it does nothing but two sweeps, each in an order of its
    own. *)
Theorem reconnect_sweep_fetches_from_one_to_cursor (m : MsgSyncer) :
  let sweep := fun order : RangeOrder SyncedSeq =>
    flat_map reconnect_events (range_of order (syncedMaxSeqs m)) in
  (forall order,
     triggerReconnect order m = add_trace (sweep order) m /\
     triggerReconnectFinished order m = add_trace (sweep order) m) /\
  (forall order k s, syncedMaxSeqs m !! k = Some s -> maxSeqSynced s <> 0 ->
     EvPull k (sessionType s) 0 (maxSeqSynced s) ∈ sweep order) /\
  (forall order k ty lo hi, EvPull k ty lo hi ∈ sweep order ->
     exists s, syncedMaxSeqs m !! k = Some s /\ maxSeqSynced s <> 0 /\
               ty = sessionType s /\ lo = 0 /\ hi = maxSeqSynced s) /\
  (forall newSeqMap, exists m2 rest,
     compare {| common.Cmd := constant.CmdReconnect;
                common.Value := common.VSeqMap newSeqMap |} m = Returned m2 /\
     trace m2 = trace m ++ sweep range_synced ++ rest) /\
  (exists m2,
     compare {| common.Cmd := constant.CmdReconnect;
                common.Value := common.VSeqMap ∅ |} m = Returned m2 /\
     trace m2 = trace m ++ sweep range_synced ++ sweep range_finished /\
     syncedMaxSeqs m2 = syncedMaxSeqs m).
Proof.
  intros sweep.
  split; [intros order; split;
          [apply triggerReconnect_eq|apply triggerReconnectFinished_eq]|].
  split; [|split; [|split]].
  - intros order k s Hk Hnz. subst sweep. apply list_elem_of_In, in_flat_map.
    exists (k, s). split.
    + apply list_elem_of_In, range_lookup, Hk.
    + unfold reconnect_events. simpl.
      destruct (Z.eqb_spec (maxSeqSynced s) 0); [done|]. by left.
  - intros order k ty lo hi Hin. subst sweep.
    apply list_elem_of_In, in_flat_map in Hin as ([k' s] & Hentry & Hev).
    apply list_elem_of_In, range_lookup in Hentry.
    unfold reconnect_events in Hev. simpl in Hev.
    destruct (Z.eqb_spec (maxSeqSynced s) 0) as [|Hnz]; [done|].
    destruct Hev as [Hev|[Hev|[]]]; [|discriminate].
    injection Hev as <- <- <- <-. exists s. done.
  - intros newSeqMap. unfold compareSeqsAndTrigger. simpl.
    rewrite (triggerReconnect_eq range_synced m). fold (sweep range_synced).
    destruct (compare_fold_extends_trace (range_of range_new newSeqMap)
                (add_trace (sweep range_synced) m)) as [r1 Hr1].
    set (m3 := set_syncTimes _ _).
    rewrite (triggerReconnectFinished_eq range_finished m3).
    eexists. eexists. split; [reflexivity|].
    simpl. rewrite Hr1. simpl. rewrite <- !app_assoc. reflexivity.
  - unfold compareSeqsAndTrigger. simpl.
    rewrite (triggerReconnect_eq range_synced m). fold (sweep range_synced).
    assert (Hnil : range_of range_new ∅ = []).
    { apply Permutation_nil_r. rewrite (range_of_perm range_new ∅).
      by rewrite map_to_list_empty. }
    rewrite Hnil. simpl.
    set (m3 := set_syncTimes _ _).
    rewrite (triggerReconnectFinished_eq range_finished m3).
    eexists. split; [reflexivity|].
    simpl. fold (sweep range_finished). by rewrite <- app_assoc.
Qed.

End catch_up_properties.

Lemma reconnect_sweep_at_cursors_10_and_0 :
  EvPull "A" 3 0 10 ∈
    trace (triggerReconnect (range_by_key SyncedSeq)
             (syncer_of [("A"%string, {| maxSeqSynced := 10; sessionType := 3 |});
                         ("B"%string, {| maxSeqSynced := 0; sessionType := 3 |})])) /\
  forall ty lo hi,
    EvPull "B" ty lo hi ∉
      trace (triggerReconnect (range_by_key SyncedSeq)
               (syncer_of [("A"%string, {| maxSeqSynced := 10; sessionType := 3 |});
                           ("B"%string, {| maxSeqSynced := 0; sessionType := 3 |})])).
Proof.
  destruct (@reconnect_sweep_fetches_from_one_to_cursor unit unit
              (range_by_key SyncedSeq) (range_by_key Seq) (range_by_key SyncedSeq)
              (syncer_of [("A"%string, {| maxSeqSynced := 10; sessionType := 3 |});
                          ("B"%string, {| maxSeqSynced := 0; sessionType := 3 |})]))
    as (Hsweep & Hnonzero & Honly & _).
  destruct (Hsweep (range_by_key SyncedSeq)) as [Hfirst _].
  rewrite Hfirst. unfold add_trace. cbn [trace syncer_of app]. split.
  - apply (Hnonzero (range_by_key SyncedSeq) "A"%string
             {| maxSeqSynced := 10; sessionType := 3 |}).
    + reflexivity.
    + simpl. lia.
  - intros ty lo hi Hin. destruct (Honly _ _ _ _ _ Hin) as (s & Hs & Hnz & _).
    vm_compute in Hs. injection Hs as <-. simpl in Hnz. lia.
Defined.

(** Two sweeps of one reconnect in different orders: C before A, then A
    before C. *)
Example reconnect_sweeps_in_two_orders :
  exists m2,
    compareSeqsAndTrigger unit unit (range_by_key SyncedSeq) (range_by_key Seq)
      (range_by_key_backwards SyncedSeq)
      {| common.Cmd := constant.CmdReconnect; common.Value := common.VSeqMap ∅ |}
      (syncer_of [("A"%string, {| maxSeqSynced := 10; sessionType := 3 |});
                  ("C"%string, {| maxSeqSynced := 7; sessionType := 3 |})]) = Returned m2 /\
    trace m2 = [EvPull "C" 3 0 7; EvNewMsgCome []; EvPull "A" 3 0 10; EvNewMsgCome [];
                EvPull "A" 3 0 10; EvNewMsgCome []; EvPull "C" 3 0 7; EvNewMsgCome []].
Proof. eexists. split; [vm_compute; reflexivity|reflexivity]. Qed.

(** C3, at a cursor of 4 and a snapshot reporting 10: one call of the
    fetcher with the bounds 4 and 10, one delivery of the empty list, and
    the cursor at 10. No message of seqs 5 to 10 reaches the conversation
    channel. *)
Theorem snapshot_of_10_at_cursor_4_delivers_no_message
    (CmdMaxSeqToMsgSync PushMessages : Type)
    (range_synced : RangeOrder SyncedSeq) (range_new : RangeOrder Seq)
    (range_finished : RangeOrder SyncedSeq) :
  exists m2,
    compareSeqsAndTrigger CmdMaxSeqToMsgSync PushMessages
      range_synced range_new range_finished
      {| common.Cmd := constant.CmdMaxSeq;
         common.Value :=
           common.VSeqMap {[ "g"%string := {| maxSeq := 10; minSeq := 0; seq_sessionType := 3 |} ]} |}
      (syncer_of [("g"%string, {| maxSeqSynced := 4; sessionType := 3 |})]) = Returned m2 /\
    trace m2 = [EvPull "g" 3 4 10; EvNewMsgCome []] /\
    cursor m2 "g" = 10.
Proof.
  unfold compareSeqsAndTrigger. simpl.
  assert (Hone : range_of range_new
                   {[ "g"%string := {| maxSeq := 10; minSeq := 0; seq_sessionType := 3 |} ]} =
                 [("g"%string, {| maxSeq := 10; minSeq := 0; seq_sessionType := 3 |})]).
  { apply Permutation_singleton_r.
    rewrite (range_of_perm range_new). by rewrite map_to_list_singleton. }
  rewrite Hone. eexists. split; [reflexivity|]. split; reflexivity.
Qed.

(** ** The fetch by seqs *)

Lemma splitSeqs_loop_grows split (l : list Z) :
  forall fuel i acc r,
    splitSeqs_loop fuel split l i acc = Returned r ->
    (length acc <= length r)%nat /\ (i < len l -> (length acc < length r)%nat).
Proof.
  induction fuel as [|fuel IH]; intros i acc r; simpl.
  - destruct (Z.ltb_spec i (len l)); [discriminate|].
    intros [= <-]. lia.
  - destruct (Z.ltb_spec i (len l)).
    + destruct (slice l i _) as [part| |]; simpl; try discriminate.
      intros Hr. apply IH in Hr as [Hr _]. rewrite length_app in Hr. simpl in Hr. lia.
    + intros [= <-]. lia.
Qed.

Lemma splitSeqs_returns_a_shard fuel split (l : list Z) shards :
  0 <= split ->
  splitSeqs fuel split l = Returned shards -> 0 < len shards.
Proof.
  intros Hsplit. unfold splitSeqs. destruct (Z.leb_spec (len l) split).
  - intros [= <-]. unfold len. simpl. lia.
  - intros Hr. apply splitSeqs_loop_grows in Hr as [_ Hr].
    unfold len in *. simpl in Hr. lia.
Qed.

Lemma splitSeqs_loop_more_fuel split (l : list Z) :
  forall fuel fuel' i acc r,
    splitSeqs_loop fuel split l i acc = Returned r ->
    (fuel <= fuel')%nat ->
    splitSeqs_loop fuel' split l i acc = Returned r.
Proof.
  induction fuel as [|fuel IH]; intros fuel' i acc r.
  - simpl. destruct (Z.ltb_spec i (len l)) as [|Hge]; [discriminate|].
    intros Hr _. destruct fuel'; simpl;
      (destruct (Z.ltb_spec i (len l)); [lia|done]).
  - intros Hr Hle. destruct fuel' as [|fuel']; [lia|].
    simpl in *. destruct (i <? len l); [|done].
    destruct (slice l i _) as [part| |]; simpl in *; try discriminate.
    apply (IH fuel'); [done|lia].
Qed.

Lemma splitSeqs_more_fuel fuel fuel' split (l : list Z) r :
  splitSeqs fuel split l = Returned r ->
  (fuel <= fuel')%nat ->
  splitSeqs fuel' split l = Returned r.
Proof.
  unfold splitSeqs. destruct (len l <=? split); [done|].
  apply splitSeqs_loop_more_fuel.
Qed.

Lemma nonempty_shards_count (shards : list (list Z)) :
  (forall j p, shards !! j = Some p -> 0 < len p) ->
  (length shards <= length (concat shards))%nat.
Proof.
  induction shards as [|p shards IH]; intros Hpos; simpl; [lia|].
  rewrite length_app.
  pose proof (Hpos 0%nat p eq_refl) as Hp. unfold len in Hp.
  assert (length shards <= length (concat shards))%nat.
  { apply IH. intros j q Hq. apply (Hpos (S j)). exact Hq. }
  lia.
Qed.

Section range_fetcher_properties.

Variable Conn : Type.
Variable SendReqWaitResp :
  Conn -> sdkws.PullMessageBySeqsReq -> Z -> Z -> string -> Conn * option GeneralWsResp.
Variable proto_Unmarshal : list Byte.byte -> option sdkws.PullMessageBySeqsResp.
Variable SplitPullMsgNum : Z.
Variable WSPullMsgBySeqList : Z.

Abbreviation fetch_loop :=
  (syncMsgBySeqs_loop Conn SendReqWaitResp proto_Unmarshal WSPullMsgBySeqList).
Abbreviation fetch :=
  (syncMsgBySeqs Conn SendReqWaitResp proto_Unmarshal SplitPullMsgNum WSPullMsgBySeqList).

(** While the connection stays in states where requests fail, the loop
    stays on the same shard until the fuel is gone. *)
Lemma syncMsgBySeqs_loop_stuck (down : Conn -> Prop) m req (seqsList : list (list Z)) :
  (forall c r id n u, down c ->
     down (SendReqWaitResp c r id n u).1 /\ (SendReqWaitResp c r id n u).2 = None) ->
  forall fuel i c acc,
    down c -> i < len seqsList ->
    fetch_loop fuel m req seqsList i c acc = OutOfFuel.
Proof.
  intros Hdown. induction fuel as [|fuel IH]; intros i c acc Hc Hi; simpl.
  - destruct (Z.ltb_spec i (len seqsList)); [done|lia].
  - destruct (Z.ltb_spec i (len seqsList)); [|lia].
    destruct (Hdown c req WSPullMsgBySeqList retryTimes (loginUserID m) Hc) as [Hc' Hnone].
    destruct (SendReqWaitResp c req WSPullMsgBySeqList retryTimes (loginUserID m))
      as [c' [resp|]]; simpl in *; [discriminate|].
    by apply IH.
Qed.

(** While every request is answered, each iteration moves to the next
    shard, decoded or not. *)
Lemma syncMsgBySeqs_loop_returns m req (seqsList : list (list Z)) :
  (forall c r id n u, (SendReqWaitResp c r id n u).2 <> None) ->
  forall fuel i c acc,
    (Z.to_nat (len seqsList - i) <= fuel)%nat ->
    exists r, fetch_loop fuel m req seqsList i c acc = Returned r.
Proof.
  intros Hup. induction fuel as [|fuel IH]; intros i c acc Hfuel; simpl.
  - destruct (Z.ltb_spec i (len seqsList)); [lia|eauto].
  - destruct (Z.ltb_spec i (len seqsList)); [|eauto].
    pose proof (Hup c req WSPullMsgBySeqList retryTimes (loginUserID m)) as Hsome.
    destruct (SendReqWaitResp c req WSPullMsgBySeqList retryTimes (loginUserID m))
      as [c' [resp|]]; simpl in *; [|done].
    destruct (proto_Unmarshal (Data resp)); apply IH; lia.
Qed.

Lemma syncMsgBySeqs_stuck (down : Conn -> Prop) fuel m sourceID ty seqsNeedSync c :
  0 <= SplitPullMsgNum ->
  (forall c r id n u, down c ->
     down (SendReqWaitResp c r id n u).1 /\ (SendReqWaitResp c r id n u).2 = None) ->
  down c ->
  forall out, fetch fuel m sourceID ty seqsNeedSync c <> Returned out.
Proof.
  intros Hpos Hdown Hc out. unfold syncMsgBySeqs.
  destruct (splitSeqs fuel SplitPullMsgNum seqsNeedSync) as [shards| |] eqn:Hsplit;
    simpl; try discriminate.
  apply splitSeqs_returns_a_shard in Hsplit; [|done].
  rewrite (syncMsgBySeqs_loop_stuck down) by done. simpl. discriminate.
Qed.

End range_fetcher_properties.

Lemma answers_nil : answers [] = 0%nat.
Proof. reflexivity. Qed.

Lemma answers_cons (r : option GeneralWsResp) rs :
  answers (r :: rs) = match r with Some _ => S (answers rs) | None => answers rs end.
Proof. destruct r; reflexivity. Qed.

Section range_fetcher_replies.

Variable Conn : Type.
Variable SendReqWaitResp :
  Conn -> sdkws.PullMessageBySeqsReq -> Z -> Z -> string -> Conn * option GeneralWsResp.
Variable proto_Unmarshal : list Byte.byte -> option sdkws.PullMessageBySeqsResp.
Variable SplitPullMsgNum : Z.
Variable WSPullMsgBySeqList : Z.

Abbreviation fetch_loop :=
  (syncMsgBySeqs_loop Conn SendReqWaitResp proto_Unmarshal WSPullMsgBySeqList).
Abbreviation fetch :=
  (syncMsgBySeqs Conn SendReqWaitResp proto_Unmarshal SplitPullMsgNum WSPullMsgBySeqList).
Abbreviation asked := (replies Conn SendReqWaitResp WSPullMsgBySeqList).
Abbreviation left_in := (conn_after Conn SendReqWaitResp WSPullMsgBySeqList).
Abbreviation read := (decoded proto_Unmarshal).

Lemma asked_step k m c c' r :
  SendReqWaitResp c {| sdkws.UserID := loginUserID m |} WSPullMsgBySeqList
    retryTimes (loginUserID m) = (c', r) ->
  asked (S k) m c = r :: asked k m c' /\ left_in (S k) m c = left_in k m c'.
Proof. intros Hsend. cbn [replies conn_after]. unfold request_of. by rewrite Hsend. Qed.

(** The loop returns at the first number of requests by which as many
    have been answered as shards remain, with what the answers decode
    to. *)
Lemma syncMsgBySeqs_loop_answered m (shards : list (list Z)) :
  forall fuel k i c acc,
    0 <= i <= len shards ->
    (k <= fuel)%nat ->
    answers (asked k m c) = Z.to_nat (len shards - i) ->
    (forall j, (j < k)%nat -> (answers (asked j m c) < Z.to_nat (len shards - i))%nat) ->
    fetch_loop fuel m {| sdkws.UserID := loginUserID m |} shards i c acc =
      Returned (left_in k m c, acc ++ concat (read <$> asked k m c)).
Proof.
  induction fuel as [|fuel IH]; intros k i c acc Hi Hk Hans Hmin.
  - assert (k = 0)%nat as -> by lia. cbn [replies] in Hans. rewrite answers_nil in Hans.
    simpl. destruct (Z.ltb_spec i (len shards)); [lia|]. by rewrite app_nil_r.
  - cbn [syncMsgBySeqs_loop]. destruct (Z.ltb_spec i (len shards)) as [Hlt|Hge].
    + destruct k as [|k].
      { cbn [replies] in Hans. rewrite answers_nil in Hans. lia. }
      destruct (SendReqWaitResp c {| sdkws.UserID := loginUserID m |}
                  WSPullMsgBySeqList retryTimes (loginUserID m))
        as [c' r] eqn:Hsend.
      assert (Hstep : forall j, asked (S j) m c = r :: asked j m c' /\
                                left_in (S j) m c = left_in j m c')
        by (intros j; by apply asked_step).
      destruct (Hstep k) as [Hasked Hleft]. rewrite Hasked, Hleft.
      rewrite Hasked, answers_cons in Hans.
      destruct r as [resp|].
      * assert (Hmin' : forall j, (j < k)%nat ->
                  (answers (asked j m c') < Z.to_nat (len shards - (i + 1)))%nat).
        { intros j Hj. specialize (Hmin (S j) ltac:(lia)).
          destruct (Hstep j) as [Hj' _]. rewrite Hj', answers_cons in Hmin. lia. }
        assert (Hrest : answers (asked k m c') = Z.to_nat (len shards - (i + 1)))
          by lia.
        rewrite fmap_cons. cbn [concat decoded].
        destruct (proto_Unmarshal (Data resp)) as [pullMsgResp|].
        -- rewrite (IH k (i + 1) c' _ ltac:(lia) ltac:(lia) Hrest Hmin').
           by rewrite <- app_assoc.
        -- rewrite (IH k (i + 1) c' _ ltac:(lia) ltac:(lia) Hrest Hmin'). done.
      * assert (Hmin' : forall j, (j < k)%nat ->
                  (answers (asked j m c') < Z.to_nat (len shards - i))%nat).
        { intros j Hj. specialize (Hmin (S j) ltac:(lia)).
          destruct (Hstep j) as [Hj' _]. by rewrite Hj', answers_cons in Hmin. }
        rewrite fmap_cons. cbn [concat decoded app].
        by rewrite (IH k i c' _ Hi ltac:(lia) Hans Hmin').
    + destruct k as [|k]; [simpl; by rewrite app_nil_r|].
      specialize (Hmin 0%nat ltac:(lia)). cbn [replies] in Hmin.
      rewrite answers_nil in Hmin. lia.
Qed.

(** Until then it asks again: with too few answers among the requests it
    is allowed, the loop is still running. *)
Lemma syncMsgBySeqs_loop_unanswered m (shards : list (list Z)) :
  forall fuel i c acc,
    0 <= i ->
    (answers (asked fuel m c) < Z.to_nat (len shards - i))%nat ->
    fetch_loop fuel m {| sdkws.UserID := loginUserID m |} shards i c acc = OutOfFuel.
Proof.
  induction fuel as [|fuel IH]; intros i c acc Hi Hans; cbn [syncMsgBySeqs_loop].
  - destruct (Z.ltb_spec i (len shards)); [done|lia].
  - destruct (Z.ltb_spec i (len shards)); [|lia].
    destruct (SendReqWaitResp c {| sdkws.UserID := loginUserID m |}
                WSPullMsgBySeqList retryTimes (loginUserID m))
      as [c' r] eqn:Hsend.
    destruct (asked_step fuel m c c' r Hsend) as [Hasked _].
    rewrite Hasked, answers_cons in Hans.
    destruct r as [resp|].
    + destruct (proto_Unmarshal (Data resp)); apply IH; lia.
    + by apply IH.
Qed.

(** C2, as the code has it. Every request of a fetch carries the retry
    budget [retryTimes], which is 2, for the connection manager to use; the
    fetcher has no budget and no abort of its own. For a positive shard
    size and enough iterations to split the seqs: the fetch returns at the
    first number of requests by which as many requests have been answered
    as there are shards, failed requests in between being asked again; it
    then returns the nil error and, in order, what the answered replies
    decode to; and as long as fewer requests have been answered than there
    are shards it has not returned, neither a list nor an error. *)
Theorem syncMsgBySeqs_asks_until_every_shard_is_answered
    (fuel : nat) (m : MsgSyncer) (sourceID : string) (sessionType : Z)
    (seqsNeedSync : list Z) (c : Conn) :
  0 < SplitPullMsgNum ->
  (length seqsNeedSync <= fuel)%nat ->
  retryTimes = 2 /\
  exists shards,
    splitSeqs fuel SplitPullMsgNum seqsNeedSync = Returned shards /\
    concat shards = seqsNeedSync /\
    (forall k,
       (k <= fuel)%nat ->
       answers (asked k m c) = length shards ->
       (forall j, (j < k)%nat -> (answers (asked j m c) < length shards)%nat) ->
       fetch fuel m sourceID sessionType seqsNeedSync c =
         Returned (left_in k m c, (concat (read <$> asked k m c), None))) /\
    ((answers (asked fuel m c) < length shards)%nat ->
     fetch fuel m sourceID sessionType seqsNeedSync c = OutOfFuel).
Proof.
  intros Hsplit Hfuel. split; [reflexivity|].
  destruct (splitSeqs_spec fuel SplitPullMsgNum seqsNeedSync Hsplit Hfuel)
    as (shards & Hrun & Hcat & _ & _).
  exists shards. split; [done|]. split; [done|].
  assert (Hlen : Z.to_nat (len shards - 0) = length shards) by (unfold len; lia).
  pose proof (len_nonneg shards) as Hpos.
  unfold syncMsgBySeqs. rewrite Hrun. simpl. split.
  - intros k Hk Hans Hmin.
    rewrite (syncMsgBySeqs_loop_answered m shards fuel k 0 c []); [done|lia|done| |].
    + by rewrite Hlen.
    + intros j Hj. rewrite Hlen. by apply Hmin.
  - intros Hans.
    rewrite (syncMsgBySeqs_loop_unanswered m shards fuel 0 c []); [done|lia|].
    by rewrite Hlen.
Qed.

End range_fetcher_replies.

Lemma syncMsgBySeqs_asks_again_after_two_failures :
  syncMsgBySeqs nat conn_fails_twice decode_one 3 1 7 (syncer_of []) "g" 3
    [1; 2; 3; 4; 5; 6; 7] 0%nat =
    Returned (5%nat, ([push_msg "c1" "g" 1; push_msg "c1" "g" 1; push_msg "c1" "g" 1],
                      None)) /\
  syncMsgBySeqs nat conn_answers_once decode_one 3 1 7 (syncer_of []) "g" 3
    [1; 2; 3; 4; 5; 6; 7] 0%nat = OutOfFuel.
Proof.
  split.
  - destruct (syncMsgBySeqs_asks_until_every_shard_is_answered nat conn_fails_twice
                decode_one 3 1 7 (syncer_of []) "g" 3 [1; 2; 3; 4; 5; 6; 7] 0%nat)
      as (_ & shards & Hrun & _ & Hanswered & _).
    + lia.
    + simpl. lia.
    + vm_compute in Hrun. injection Hrun as <-.
      apply (Hanswered 5%nat).
      * lia.
      * reflexivity.
      * intros j Hj. do 5 (destruct j as [|j]; [vm_compute; lia|]). lia.
  - destruct (syncMsgBySeqs_asks_until_every_shard_is_answered nat conn_answers_once
                decode_one 3 1 7 (syncer_of []) "g" 3 [1; 2; 3; 4; 5; 6; 7] 0%nat)
      as (_ & shards & Hrun & _ & _ & Hunanswered).
    + lia.
    + simpl. lia.
    + vm_compute in Hrun. injection Hrun as <-.
      apply Hunanswered. vm_compute. lia.
Defined.

(** C2 as stated fails: seven seqs in shards of three, the first request
    answered and every later one failing. The fetch stays on the second
    shard: however many requests it is allowed, it is still running, and
    has neither returned a list or an error nor stopped. *)
Lemma syncMsgBySeqs_does_not_abort_on_second_shard :
  ~ exists fuel,
      syncMsgBySeqs nat conn_answers_once decode_one 3 1 fuel (syncer_of []) "g" 3
        [1; 2; 3; 4; 5; 6; 7] 0%nat <> OutOfFuel.
Proof.
  intros (fuel & Hrun). apply Hrun.
  destruct fuel as [|[|[|fuel]]]; try reflexivity.
  unfold syncMsgBySeqs.
  assert (Hsplit : splitSeqs (S (S (S fuel))) 3 [1; 2; 3; 4; 5; 6; 7] =
                   Returned [[1; 2; 3]; [4; 5; 6]; [7]]).
  { apply (splitSeqs_more_fuel 3%nat); [reflexivity|lia]. }
  rewrite Hsplit. cbn [mbind Outcome_bind].
  change (syncMsgBySeqs_loop nat conn_answers_once decode_one 1 (S (S (S fuel)))
            (syncer_of []) {| sdkws.UserID := loginUserID (syncer_of []) |}
            [[1; 2; 3]; [4; 5; 6]; [7]] 0 0%nat [])
    with (syncMsgBySeqs_loop nat conn_answers_once decode_one 1 (S (S fuel))
            (syncer_of []) {| sdkws.UserID := loginUserID (syncer_of []) |}
            [[1; 2; 3]; [4; 5; 6]; [7]] 1 1%nat [push_msg "c1" "g" 1]).
  rewrite (syncMsgBySeqs_loop_stuck nat conn_answers_once decode_one 1
             (fun c => (1 <= c)%nat)).
  - reflexivity.
  - intros c r id n u Hc. unfold conn_answers_once. simpl. split; [lia|].
    destruct c; [lia|done].
  - lia.
  - reflexivity.
Qed.

(** A request that is answered with data that does not decode is not sent
    again: the shard is left out and the rest is returned with a nil
    error. *)
Example syncMsgBySeqs_skips_an_undecodable_shard :
  syncMsgBySeqs nat conn_answers (fun _ => None) 3 1 7 (syncer_of []) "g" 3
    [1; 2; 3; 4; 5; 6; 7] 0%nat = Returned (3%nat, ([], None)).
Proof. reflexivity. Qed.

(** ** The super group table *)

(** C10. [GetJoinedSuperGroupIDList] never returns a group id: its list is
    nil on every database, and when [GetJoinedSuperGroupList] reports no
    error the result is the nil list with the nil error, whatever groups
    the table holds. *)
Theorem GetJoinedSuperGroupIDList_returns_nil
    (Wrap : error -> string -> error) (d : db.DataBase) :
  (db.GetJoinedSuperGroupIDList Wrap d).1 = [] /\
  ((db.GetJoinedSuperGroupList Wrap d).2 = None ->
   db.GetJoinedSuperGroupIDList Wrap d = ([], None)).
Proof.
  unfold db.GetJoinedSuperGroupIDList.
  destruct (db.GetJoinedSuperGroupList Wrap d) as [groupList [err|]]; simpl.
  - split; [done|discriminate].
  - split; done.
Qed.

Lemma GetJoinedSuperGroupIDList_returns_nil_on_two_groups :
  (db.GetJoinedSuperGroupList wrap_keeps_nil two_groups).1 =
    [{| db.GroupID := "g1"; db.GroupName := "one" |};
     {| db.GroupID := "g2"; db.GroupName := "two" |}] /\
  db.GetJoinedSuperGroupIDList wrap_keeps_nil two_groups = ([], None).
Proof.
  split; [reflexivity|].
  apply (GetJoinedSuperGroupIDList_returns_nil wrap_keeps_nil two_groups).
  reflexivity.
Defined.

(** ** Loading the cursors *)

Section load_properties.

Variable GetReadDiffusionGroupIDList : list string * error.
Variable GetSuperGroupNormalMsgSeq : string -> Z * error.
Variable GetSuperGroupAbnormalMsgSeq : string -> Z * error.
Variable SuperGroupChatType : Z.

Abbreviation load_loop :=
  (loadSeq_loop GetSuperGroupNormalMsgSeq GetSuperGroupAbnormalMsgSeq SuperGroupChatType).
Abbreviation load :=
  (loadSeq GetReadDiffusionGroupIDList GetSuperGroupNormalMsgSeq
     GetSuperGroupAbnormalMsgSeq SuperGroupChatType).
Abbreviation readable groupID :=
  ((GetSuperGroupNormalMsgSeq groupID).2 = None /\
   (GetSuperGroupAbnormalMsgSeq groupID).2 = None).
Abbreviation loaded groupID :=
  {| maxSeqSynced := Z.max (GetSuperGroupNormalMsgSeq groupID).1
                       (GetSuperGroupAbnormalMsgSeq groupID).1;
     sessionType := SuperGroupChatType |}.

Lemma larger_seq_is_max (n a : Z) : (if a >? n then a else n) = Z.max n a.
Proof. destruct (Z.gtb_spec a n); lia. Qed.

Lemma loadSeq_loop_readable (groupIDs : list string) :
  forall m,
    (forall g, g ∈ groupIDs -> readable g) ->
    (load_loop groupIDs m).2 = None /\
    trace (load_loop groupIDs m).1 = trace m /\
    forall k, syncedMaxSeqs (load_loop groupIDs m).1 !! k =
              if decide (k ∈ groupIDs) then Some (loaded k) else syncedMaxSeqs m !! k.
Proof.
  induction groupIDs as [|g rest IH]; intros m Hok.
  - simpl. split; [done|]. split; [done|]. intros k.
    destruct (decide (k ∈ [])) as [Hin|]; [by apply elem_of_nil in Hin|done].
  - destruct (Hok g) as [Hn Ha]; [by left|]. simpl.
    destruct (GetSuperGroupNormalMsgSeq g) as [n en] eqn:En.
    destruct (GetSuperGroupAbnormalMsgSeq g) as [a ea] eqn:Ea.
    simpl in Hn, Ha. subst en ea.
    destruct (IH (set_syncedMaxSeqs
                    (insert g {| maxSeqSynced := if a >? n then a else n;
                                 sessionType := SuperGroupChatType |}) m))
      as (Herr & Htrace & Hmap).
    { intros g' Hg'. apply Hok. by right. }
    split; [done|]. split; [done|]. intros k. rewrite Hmap. simpl.
    destruct (decide (k ∈ rest)) as [Hin|Hnin].
    + rewrite decide_True; [done|by right].
    + destruct (decide (k = g)) as [->|Hne].
      * rewrite decide_True by (by left). rewrite lookup_insert_eq.
        rewrite En, Ea. simpl. by rewrite larger_seq_is_max.
      * rewrite lookup_insert_ne by done.
        rewrite decide_False; [done|].
        intros [->|Hin]%elem_of_cons; done.
Qed.



(** X1. When the list of groups and both seqs of every listed group can be
    read, [loadSeq] returns nil and the cursor map is exactly the listed
    groups, each at the larger of its normal and abnormal seq with the
    super group session type; whatever the map held before is gone. *)
Theorem loadSeq_loads_the_larger_seq (groupIDs : list string) (m : MsgSyncer) :
  GetReadDiffusionGroupIDList = (groupIDs, None) ->
  (forall g, g ∈ groupIDs -> readable g) ->
  (load m).2 = None /\
  trace (load m).1 = trace m /\
  forall k, syncedMaxSeqs (load m).1 !! k =
            if decide (k ∈ groupIDs) then Some (loaded k) else None.
Proof.
  intros Hlist Hok. unfold loadSeq. rewrite Hlist.
  destruct (loadSeq_loop_readable groupIDs (set_syncedMaxSeqs (fun _ => ∅) m) Hok)
    as (Herr & Htrace & Hmap).
  split; [done|]. split; [done|]. intros k. rewrite Hmap. simpl.
  by rewrite lookup_empty.
Qed.


End load_properties.

Lemma loadSeq_loads_the_larger_seq_of_two_groups :
  (loadSeq (["g1"; "g2"]%string, None) store_normal_seq store_abnormal_seq_ok 3
     (syncer_of [("old"%string, {| maxSeqSynced := 5; sessionType := 1 |})])).2 = None /\
  cursor (loadSeq (["g1"; "g2"]%string, None) store_normal_seq store_abnormal_seq_ok 3
            (syncer_of [("old"%string, {| maxSeqSynced := 5; sessionType := 1 |})])).1 "g1" = 9 /\
  cursor (loadSeq (["g1"; "g2"]%string, None) store_normal_seq store_abnormal_seq_ok 3
            (syncer_of [("old"%string, {| maxSeqSynced := 5; sessionType := 1 |})])).1 "g2" = 4 /\
  syncedMaxSeqs
    (loadSeq (["g1"; "g2"]%string, None) store_normal_seq store_abnormal_seq_ok 3
       (syncer_of [("old"%string, {| maxSeqSynced := 5; sessionType := 1 |})])).1
    !! "old"%string = None.
Proof.
  destruct (loadSeq_loads_the_larger_seq (["g1"; "g2"]%string, None)
              store_normal_seq store_abnormal_seq_ok 3 ["g1"; "g2"]%string
              (syncer_of [("old"%string, {| maxSeqSynced := 5; sessionType := 1 |})]))
    as (Herr & _ & Hmap).
  - reflexivity.
  - intros g _. split; reflexivity.
  - split; [exact Herr|]. unfold cursor, synced_at. rewrite !Hmap.
    repeat split.
Defined.


(** ** More on the live push handler *)

Section push_handler_behaviour.

Context {CmdMaxSeqToMsgSync PushMessages : Type}.
Variable doConnected : MsgSyncer -> Outcome MsgSyncer.
Variable doMaxSeq : CmdMaxSeqToMsgSync -> MsgSyncer -> Outcome MsgSyncer.
Variable doPushMsg : PushMessages -> MsgSyncer -> Outcome MsgSyncer.

Abbreviation Cmd2Value := (common.Cmd2Value CmdMaxSeqToMsgSync PushMessages).
Abbreviation handle := (handlePushMsgAndEvent _ _ doConnected doMaxSeq doPushMsg).
Abbreviation switch := (control_switch _ _ doConnected doMaxSeq doPushMsg).
Abbreviation listen := (DoListener _ _ doConnected doMaxSeq doPushMsg).

(** The command names on which the switch of the handler does nothing. *)
Abbreviation falls_through name :=
  (name <> constant.CmdConnSuccesss /\ name <> constant.CmdMaxSeq /\
   name <> constant.CmdPushMsg).

Lemma switch_falls_through (cmd : Cmd2Value) p m :
  common.Value cmd = common.VMsgData p ->
  falls_through (common.Cmd cmd) ->
  switch cmd m = Returned m.
Proof.
  intros Hv (H1 & H2 & H3).
  rewrite (control_switch_on_a_message _ _ _ cmd p m Hv).
  destruct (common.Cmd cmd); done.
Qed.

(** X3. A message with seq 0 is handed to the conversation channel as the
    one-element list and the cursor map is left as it is, also when the
    conversation is not in the map. *)
Theorem push_of_seq_0_bypasses_cursor (cmd : Cmd2Value) (msg : sdkws.MsgData)
    (m m1 : MsgSyncer) :
  common.Value cmd = common.VMsgData (Some msg) ->
  switch cmd m = Returned m1 ->
  sdkws.Seq msg = 0 ->
  exists m2,
    handle cmd m = Returned m2 /\
    trace m2 = trace m1 ++ [EvNewMsgCome [msg]] /\
    syncedMaxSeqs m2 = syncedMaxSeqs m1.
Proof.
  intros Hv Hs Hz. exists (handle_msg msg m1).
  split; [by apply handle_on_a_message|].
  unfold handle_msg. rewrite Hz. simpl. done.
Qed.

(** X4. A command that carries the message [msg] and gets past the switch
    with state [m1]: when [msg.Seq] is neither 0 nor the cursor plus one,
    the message is not delivered: the only list sent to the conversation
    channel is the empty result of the fetch. The entry of the conversation
    becomes the seq and the session type of the message. *)
Theorem push_off_sequence_drops_the_message (cmd : Cmd2Value) (msg : sdkws.MsgData)
    (m m1 : MsgSyncer) :
  common.Value cmd = common.VMsgData (Some msg) ->
  switch cmd m = Returned m1 ->
  sdkws.Seq msg <> 0 ->
  sdkws.Seq msg <> wrap64 (cursor m1 (sdkws.GroupID msg) + 1) ->
  exists m2 events,
    handle cmd m = Returned m2 /\
    trace m2 = trace m1 ++ events /\
    (forall msgs, EvNewMsgCome msgs ∈ events -> msgs = []) /\
    EvPull (sdkws.GroupID msg) (sdkws.SessionType msg)
      (cursor m1 (sdkws.GroupID msg)) (sdkws.Seq msg) ∈ events /\
    syncedMaxSeqs m2 !! sdkws.GroupID msg =
      Some {| maxSeqSynced := sdkws.Seq msg; sessionType := sdkws.SessionType msg |}.
Proof.
  intros Hv Hs Hnz Hne.
  exists (handle_msg msg m1),
    [EvPull (sdkws.GroupID msg) (sdkws.SessionType msg)
       (cursor m1 (sdkws.GroupID msg)) (sdkws.Seq msg); EvNewMsgCome []].
  split; [by apply handle_on_a_message|].
  unfold handle_msg.
  destruct (Z.eqb_spec (sdkws.Seq msg) 0) as [|_]; [done|].
  destruct (Z.eqb_spec (sdkws.Seq msg) (wrap64 (cursor m1 (sdkws.GroupID msg) + 1)))
    as [|_]; [done|].
  rewrite sync_eq. simpl. split; [done|]. split; [|split].
  - intros msgs Hin. apply elem_of_cons in Hin as [Hin|Hin]; [discriminate|].
    apply elem_of_cons in Hin as [Hin|Hin]; [by injection Hin|].
    by apply elem_of_nil in Hin.
  - by left.
  - by rewrite lookup_insert_eq.
Qed.


(** X6. A command that carries the message [msg] and gets past the switch
    with state [m1]: when the conversation of [msg] is not in the map of
    [m1] and [msg.Seq] is 1, the message takes the fast path and the entry
    is created with session type 0, the zero value, not with the session
    type of the message. *)
Theorem first_push_records_session_type_0 (cmd : Cmd2Value) (msg : sdkws.MsgData)
    (m m1 : MsgSyncer) :
  common.Value cmd = common.VMsgData (Some msg) ->
  switch cmd m = Returned m1 ->
  syncedMaxSeqs m1 !! sdkws.GroupID msg = None ->
  sdkws.Seq msg = 1 ->
  exists m2,
    handle cmd m = Returned m2 /\
    trace m2 = trace m1 ++ [EvNewMsgCome [msg]] /\
    syncedMaxSeqs m2 !! sdkws.GroupID msg =
      Some {| maxSeqSynced := 1; sessionType := 0 |}.
Proof.
  intros Hv Hs Hnone Hone. exists (handle_msg msg m1).
  split; [by apply handle_on_a_message|].
  unfold handle_msg, cursor, synced_at, triggerConversation. simpl.
  rewrite Hnone, Hone. simpl. split; [done|].
  by rewrite lookup_insert_eq.
Qed.

(** X7. The handlers [doMaxSeq] and [doPushMsg] are never reached: the
    outcome of [handlePushMsgAndEvent] is the same whatever they are. *)
Theorem handlePushMsgAndEvent_never_calls_doMaxSeq_doPushMsg
    (doMaxSeq' : CmdMaxSeqToMsgSync -> MsgSyncer -> Outcome MsgSyncer)
    (doPushMsg' : PushMessages -> MsgSyncer -> Outcome MsgSyncer)
    (cmd : Cmd2Value) (m : MsgSyncer) :
  handle cmd m = handlePushMsgAndEvent _ _ doConnected doMaxSeq' doPushMsg' cmd m.
Proof.
  unfold handlePushMsgAndEvent, control_switch.
  destruct cmd as [name v]. simpl.
  destruct v; reflexivity.
Qed.

(** X8. A command whose payload is the nil [*sdkws.MsgData] passes the
    type assertion and makes the handler panic at [msg.Seq]: whatever the
    command name, the handler panics, unless [doConnected] was called and
    did not return. *)
Theorem handlePushMsgAndEvent_nil_message (cmd : Cmd2Value) (m : MsgSyncer) :
  common.Value cmd = common.VMsgData None ->
  handle cmd m = Panicked \/
  (common.Cmd cmd = constant.CmdConnSuccesss /\ doConnected m = OutOfFuel /\
   handle cmd m = OutOfFuel).
Proof.
  intros Hv. unfold handlePushMsgAndEvent.
  rewrite Hv, (control_switch_on_a_message _ _ _ cmd None m Hv). simpl.
  unfold mbind, Outcome_bind.
  destruct (common.Cmd cmd); try (by left).
  destruct (doConnected m); [by left|by left|by right].
Qed.

(** ** The listener *)

Lemma DoListener_app (cmds1 cmds2 : list Cmd2Value) :
  forall m, listen (cmds1 ++ cmds2) m = listen cmds1 m ≫= listen cmds2.
Proof.
  induction cmds1 as [|cmd cmds1 IH]; intros m; simpl; [done|].
  destruct (handle cmd m) as [m1| |]; simpl; [apply IH|done|done].
Qed.

(** X9. One command that is not a message, or that is named [CmdMaxSeq] or
    [CmdPushMsg], ends the listener: when the commands before it were
    processed, the listener panics on it and the commands after it are
    never processed. *)
Theorem DoListener_stops_at_a_malformed_command
    (before after : list Cmd2Value) (cmd : Cmd2Value) (m m1 : MsgSyncer) :
  listen before m = Returned m1 ->
  (forall p, common.Value cmd <> common.VMsgData p) \/
  common.Cmd cmd = constant.CmdMaxSeq \/
  common.Cmd cmd = constant.CmdPushMsg ->
  listen (before ++ cmd :: after) m = Panicked.
Proof.
  intros Hbefore Hbad. rewrite DoListener_app, Hbefore. simpl.
  assert (Hcmd : handle cmd m1 = Panicked).
  { unfold handlePushMsgAndEvent, control_switch.
    destruct cmd as [name v]. simpl in *.
    destruct Hbad as [Hv | [-> | ->]].
    - destruct v; try reflexivity. by destruct (Hv p).
    - destruct v; reflexivity.
    - destruct v; reflexivity. }
  by rewrite Hcmd.
Qed.

(** X10. Messages of one conversation that arrive in order, with seqs
    cursor+1, cursor+2, ..., under command names on which the switch does
    nothing: the listener delivers each of them once, in order, calls no
    fetch, and ends with the cursor at the last seq. *)
Theorem DoListener_in_order_pushes (groupID : string) (msgs : list sdkws.MsgData) :
  forall (cmds : list Cmd2Value) (m : MsgSyncer),
    Forall2 (fun cmd msg => common.Value cmd = common.VMsgData (Some msg) /\
                            falls_through (common.Cmd cmd)) cmds msgs ->
    (forall i msg, msgs !! i = Some msg ->
       sdkws.GroupID msg = groupID /\
       sdkws.Seq msg = cursor m groupID + 1 + Z.of_nat i) ->
    0 <= cursor m groupID ->
    cursor m groupID + len msgs <= max_int64 ->
    exists m2,
      listen cmds m = Returned m2 /\
      trace m2 = trace m ++ ((fun msg => EvNewMsgCome [msg]) <$> msgs) /\
      cursor m2 groupID = cursor m groupID + len msgs /\
      forall key, key <> groupID -> syncedMaxSeqs m2 !! key = syncedMaxSeqs m !! key.
Proof.
  induction msgs as [|msg msgs IH]; intros cmds m Hcmds Hseq Hpos Hmax.
  - apply Forall2_nil_inv_r in Hcmds as ->. exists m. simpl.
    rewrite app_nil_r. unfold len. simpl. split; [done|]. split; [done|].
    split; [lia|done].
  - apply Forall2_cons_inv_r in Hcmds as (cmd & cmds' & [Hv Hft] & Hrest & ->).
    destruct (Hseq 0%nat msg eq_refl) as [Hg Hs].
    assert (Hlen : len (msg :: msgs) = 1 + len msgs) by (unfold len; simpl; lia).
    pose proof (len_nonneg msgs) as Hlen0.
    assert (Hstep : handle cmd m = Returned (handle_msg msg m)).
    { apply handle_on_a_message; [done|]. by apply (switch_falls_through cmd (Some msg)). }
    assert (Hfast : handle_msg msg m =
                    set_syncedMaxSeqs
                      (insert groupID {| maxSeqSynced := cursor m groupID + 1;
                                         sessionType := sessionType (synced_at m groupID) |})
                      (triggerConversation [msg] m)).
    { unfold handle_msg. rewrite Hg, Hs.
      replace (cursor m groupID + 1 + Z.of_nat 0) with (cursor m groupID + 1) by lia.
      destruct (Z.eqb_spec (cursor m groupID + 1) 0); [lia|].
      rewrite wrap64_id by (unfold is_int64, min_int64, max_int64 in *; lia).
      rewrite Z.eqb_refl. reflexivity. }
    set (m1 := handle_msg msg m) in *.
    assert (Hcur : cursor m1 groupID = cursor m groupID + 1).
    { rewrite Hfast. unfold cursor, synced_at. simpl. by rewrite lookup_insert_eq. }
    destruct (IH cmds' m1) as (m2 & Hrun & Htrace & Hcursor & Hframe).
    + done.
    + intros i msg' Hi. destruct (Hseq (S i) msg' Hi) as [Hg' Hs'].
      split; [done|]. rewrite Hcur, Hs'. lia.
    + lia.
    + lia.
    + exists m2. split; [|split; [|split]].
      * simpl. rewrite Hstep. exact Hrun.
      * rewrite Htrace, Hfast. simpl. by rewrite <- app_assoc.
      * rewrite Hcursor, Hcur. lia.
      * intros key Hkey. rewrite (Hframe key Hkey), Hfast. simpl.
        by rewrite lookup_insert_ne.
Qed.

End push_handler_behaviour.

Lemma push_of_seq_0_bypasses_cursor_at_50 :
  exists m2,
    handlePushMsgAndEvent unit unit no_op_handler no_op_handler1 no_op_handler1
      (push_cmd (push_msg "c0" "g" 0)) syncer_g50_h7 = Returned m2 /\
    trace m2 = [EvNewMsgCome [push_msg "c0" "g" 0]] /\
    syncedMaxSeqs m2 = syncedMaxSeqs syncer_g50_h7.
Proof.
  apply (push_of_seq_0_bypasses_cursor no_op_handler no_op_handler1 no_op_handler1
           (push_cmd (push_msg "c0" "g" 0)) (push_msg "c0" "g" 0)
           syncer_g50_h7 syncer_g50_h7); reflexivity.
Defined.

Lemma push_off_sequence_drops_the_message_80_at_50 :
  exists m2 events,
    handlePushMsgAndEvent unit unit no_op_handler no_op_handler1 no_op_handler1
      (push_cmd (push_msg "c80" "g" 80)) syncer_g50_h7 = Returned m2 /\
    trace m2 = [] ++ events /\
    (forall msgs, EvNewMsgCome msgs ∈ events -> msgs = []) /\
    EvPull "g" 3 50 80 ∈ events /\
    syncedMaxSeqs m2 !! "g"%string = Some {| maxSeqSynced := 80; sessionType := 3 |}.
Proof.
  apply (push_off_sequence_drops_the_message no_op_handler no_op_handler1 no_op_handler1
           (push_cmd (push_msg "c80" "g" 80)) (push_msg "c80" "g" 80)
           syncer_g50_h7 syncer_g50_h7).
  - reflexivity.
  - reflexivity.
  - simpl. lia.
  - vm_compute. discriminate.
Defined.


Lemma first_push_records_session_type_0_for_type_3 :
  exists m2,
    handlePushMsgAndEvent unit unit no_op_handler no_op_handler1 no_op_handler1
      (push_cmd (push_msg "c1" "new" 1)) syncer_g50_h7 = Returned m2 /\
    trace m2 = [EvNewMsgCome [push_msg "c1" "new" 1]] /\
    syncedMaxSeqs m2 !! "new"%string = Some {| maxSeqSynced := 1; sessionType := 0 |}.
Proof.
  apply (first_push_records_session_type_0 no_op_handler no_op_handler1 no_op_handler1
           (push_cmd (push_msg "c1" "new" 1)) (push_msg "c1" "new" 1)
           syncer_g50_h7 syncer_g50_h7); reflexivity.
Defined.

Lemma handlePushMsgAndEvent_nil_message_panics :
  handlePushMsgAndEvent unit unit no_op_handler no_op_handler1 no_op_handler1
    {| common.Cmd := constant.CmdConnSuccesss; common.Value := common.VMsgData None |}
    syncer_g50_h7 = Panicked.
Proof.
  destruct (handlePushMsgAndEvent_nil_message no_op_handler no_op_handler1 no_op_handler1
              {| common.Cmd := constant.CmdConnSuccesss;
                 common.Value := common.VMsgData None |} syncer_g50_h7)
    as [Hpanic|(_ & Hloop & _)].
  - reflexivity.
  - exact Hpanic.
  - discriminate Hloop.
Defined.

Lemma DoListener_stops_at_a_push_envelope :
  DoListener unit unit no_op_handler no_op_handler1 no_op_handler1
    ([push_cmd (push_msg "c51" "g" 51)] ++
     {| common.Cmd := constant.CmdPushMsg; common.Value := common.VPushMessages () |}
       :: [push_cmd (push_msg "c52" "g" 52)])
    syncer_g50_h7 = Panicked.
Proof.
  eapply (DoListener_stops_at_a_malformed_command no_op_handler no_op_handler1
            no_op_handler1).
  - reflexivity.
  - right. right. reflexivity.
Defined.

Lemma DoListener_in_order_pushes_51_to_53 :
  exists m2,
    DoListener unit unit no_op_handler no_op_handler1 no_op_handler1
      [push_cmd (push_msg "c51" "g" 51); push_cmd (push_msg "c52" "g" 52);
       push_cmd (push_msg "c53" "g" 53)] syncer_g50_h7 = Returned m2 /\
    trace m2 = [EvNewMsgCome [push_msg "c51" "g" 51];
                EvNewMsgCome [push_msg "c52" "g" 52];
                EvNewMsgCome [push_msg "c53" "g" 53]] /\
    cursor m2 "g" = 53.
Proof.
  destruct (DoListener_in_order_pushes no_op_handler no_op_handler1 no_op_handler1 "g"
              [push_msg "c51" "g" 51; push_msg "c52" "g" 52; push_msg "c53" "g" 53]
              [push_cmd (push_msg "c51" "g" 51); push_cmd (push_msg "c52" "g" 52);
               push_cmd (push_msg "c53" "g" 53)] syncer_g50_h7)
    as (m2 & Hrun & Htrace & Hcursor & _).
  - repeat constructor; discriminate.
  - intros [|[|[|i]]] msg Hi; simpl in Hi; try discriminate;
      injection Hi as <-; split; reflexivity.
  - vm_compute. discriminate.
  - vm_compute. discriminate.
  - exists m2. split; [exact Hrun|]. split; [exact Htrace|exact Hcursor].
Defined.

(** ** More on the catch-up engine *)

(** A loop over a map whose body rewrites only the entry it visits: the
    entry of every visited key is the body's update of what was there, the
    others are untouched, whatever the order of the visit. *)
Lemma fold_over_own_keys {V : Type} (step : MsgSyncer -> string * V -> MsgSyncer)
    (upd : string -> V -> option SyncedSeq -> option SyncedSeq) :
  (forall m k v k',
     syncedMaxSeqs (step m (k, v)) !! k' =
       if decide (k' = k) then upd k v (syncedMaxSeqs m !! k)
       else syncedMaxSeqs m !! k') ->
  forall (entries : list (string * V)) (m : MsgSyncer),
    NoDup entries.*1 ->
    forall k,
      syncedMaxSeqs (foldl step m entries) !! k =
        match (list_to_map entries : gmap string V) !! k with
        | Some v => upd k v (syncedMaxSeqs m !! k)
        | None => syncedMaxSeqs m !! k
        end.
Proof.
  intros Hstep. induction entries as [|[k0 v0] entries IH]; intros m Hnd k.
  - simpl. by rewrite lookup_empty.
  - change (foldl step m ((k0, v0) :: entries))
      with (foldl step (step m (k0, v0)) entries).
    simpl in Hnd. apply NoDup_cons in Hnd as [Hk0 Hnd].
    rewrite (IH _ Hnd), list_to_map_cons, Hstep.
    destruct (decide (k = k0)) as [->|Hne].
    + rewrite lookup_insert_eq.
      by rewrite (not_elem_of_list_to_map_1 entries k0 Hk0).
    + rewrite lookup_insert_ne by done. done.
Qed.

Lemma range_of_keys {V : Type} (order : RangeOrder V) (entries : gmap string V) :
  NoDup (range_of order entries).*1 /\
  (list_to_map (range_of order entries) : gmap string V) = entries.
Proof.
  pose proof (range_of_perm order entries) as Hperm.
  assert (Hnd : NoDup (range_of order entries).*1).
  { rewrite Hperm. apply NoDup_fst_map_to_list. }
  split; [done|].
  rewrite (list_to_map_proper _ (map_to_list entries)); [|done|done].
  apply list_to_map_to_list.
Qed.

(** A loop whose body only adds fetch calls and empty deliveries to the
    trace adds only such events. *)
Lemma fold_adds_no_message {V : Type} (step : MsgSyncer -> V -> MsgSyncer) :
  (forall m v, exists events,
     trace (step m v) = trace m ++ events /\
     forall msgs, EvNewMsgCome msgs ∈ events -> msgs = []) ->
  forall (entries : list V) (m : MsgSyncer),
  exists events,
    trace (foldl step m entries) = trace m ++ events /\
    forall msgs, EvNewMsgCome msgs ∈ events -> msgs = [].
Proof.
  intros Hstep. induction entries as [|v entries IH]; intros m.
  - exists []. simpl. rewrite app_nil_r. split; [done|].
    intros msgs Hin. by apply elem_of_nil in Hin.
  - change (foldl step m (v :: entries)) with (foldl step (step m v) entries).
    destruct (Hstep m v) as (e1 & He1 & Hq1).
    destruct (IH (step m v)) as (e2 & He2 & Hq2).
    exists (e1 ++ e2). rewrite He2, He1, <- app_assoc. split; [done|].
    intros msgs Hin. apply elem_of_app in Hin as [Hin|Hin]; eauto.
Qed.

Lemma sync_adds_no_message sourceID ty lo hi m :
  exists events,
    trace (sync sourceID ty lo hi m).1 = trace m ++ events /\
    forall msgs, EvNewMsgCome msgs ∈ events -> msgs = [].
Proof.
  rewrite sync_eq. eexists. split; [reflexivity|].
  intros msgs Hin. apply elem_of_cons in Hin as [Hin|Hin]; [discriminate|].
  apply elem_of_cons in Hin as [Hin|Hin]; [by injection Hin|].
  by apply elem_of_nil in Hin.
Qed.

Lemma nothing_added_no_message m :
  exists events : list Event,
    trace m = trace m ++ events /\
    forall msgs, EvNewMsgCome msgs ∈ events -> msgs = [].
Proof.
  exists []. rewrite app_nil_r. split; [done|].
  intros msgs Hin. by apply elem_of_nil in Hin.
Qed.

Section catch_up_behaviour.

Context {CmdMaxSeqToMsgSync PushMessages : Type}.
Variable range_synced : RangeOrder SyncedSeq.
Variable range_new : RangeOrder Seq.
Variable range_finished : RangeOrder SyncedSeq.

Abbreviation Cmd2Value := (common.Cmd2Value CmdMaxSeqToMsgSync PushMessages).
Abbreviation compare :=
  (compareSeqsAndTrigger CmdMaxSeqToMsgSync PushMessages
     range_synced range_new range_finished).

(** The entry of a conversation after the comparison with the snapshot
    value [newSeq]. *)
Abbreviation compared newSeq old :=
  (match old with
   | Some syncedSeq =>
       if maxSeq newSeq >? maxSeqSynced syncedSeq
       then Some {| maxSeqSynced := maxSeq newSeq; sessionType := seq_sessionType newSeq |}
       else Some syncedSeq
   | None =>
       Some {| maxSeqSynced := maxSeq newSeq; sessionType := seq_sessionType newSeq |}
   end).

Lemma compare_step_lookup m k (newSeq : Seq) k' :
  syncedMaxSeqs (compare_step m (k, newSeq)) !! k' =
    if decide (k' = k) then compared newSeq (syncedMaxSeqs m !! k)
    else syncedMaxSeqs m !! k'.
Proof.
  unfold compare_step.
  destruct (syncedMaxSeqs m !! k) as [old|] eqn:Hold.
  - destruct (maxSeq newSeq >? maxSeqSynced old).
    + rewrite sync_eq. simpl. destruct (decide (k' = k)) as [->|Hne].
      * by rewrite lookup_insert_eq.
      * by rewrite lookup_insert_ne.
    + destruct (decide (k' = k)) as [->|Hne]; done.
  - rewrite sync_eq. simpl. destruct (decide (k' = k)) as [->|Hne].
    + by rewrite lookup_insert_eq.
    + by rewrite lookup_insert_ne.
Qed.

Lemma compare_fold_syncTimes (entries : list (string * Seq)) :
  forall m, syncTimes (foldl compare_step m entries) = syncTimes m.
Proof.
  induction entries as [|[k s] entries IH]; intros m; [done|].
  change (foldl compare_step m ((k, s) :: entries))
    with (foldl compare_step (compare_step m (k, s)) entries).
  rewrite IH. unfold compare_step.
  destruct (syncedMaxSeqs m !! k) as [old|].
  - destruct (maxSeq s >? maxSeqSynced old); [by rewrite sync_eq|done].
  - by rewrite sync_eq.
Qed.

(** X11. Under a command name other than [CmdInit] and [CmdReconnect],
    [compareSeqsAndTrigger] returns, and whatever the iteration order: a
    known conversation reported above its cursor moves to the reported seq
    and session type, one reported at or below its cursor keeps its entry,
    an unknown conversation gets the reported seq (whatever its value), a
    conversation that is not in the snapshot keeps what it had, and the
    sync counter goes up by one. *)
Theorem compareSeqsAndTrigger_cursors (cmd : Cmd2Value) (newSeqMap : gmap string Seq)
    (m : MsgSyncer) :
  common.Value cmd = common.VSeqMap newSeqMap ->
  common.Cmd cmd <> constant.CmdInit ->
  common.Cmd cmd <> constant.CmdReconnect ->
  exists m2,
    compare cmd m = Returned m2 /\
    syncTimes m2 = wrap64 (syncTimes m + 1) /\
    forall k,
      syncedMaxSeqs m2 !! k =
        match newSeqMap !! k with
        | Some newSeq => compared newSeq (syncedMaxSeqs m !! k)
        | None => syncedMaxSeqs m !! k
        end.
Proof.
  intros Hv Hinit Hrec. unfold compareSeqsAndTrigger. rewrite Hv. simpl.
  destruct (range_of_keys range_new newSeqMap) as [Hnd Hmap].
  assert (Hrun : exists m2,
             Returned (set_syncTimes (fun n => wrap64 (n + 1))
                         (foldl compare_step m (range_of range_new newSeqMap))) =
             Returned m2 /\
             syncTimes m2 = wrap64 (syncTimes m + 1) /\
             forall k, syncedMaxSeqs m2 !! k =
                       match newSeqMap !! k with
                       | Some newSeq => compared newSeq (syncedMaxSeqs m !! k)
                       | None => syncedMaxSeqs m !! k
                       end).
  { eexists. split; [reflexivity|]. simpl. split.
    - by rewrite compare_fold_syncTimes.
    - intros k.
      rewrite (fold_over_own_keys compare_step (fun _ v old => compared v old) compare_step_lookup
                 _ m Hnd k).
      by rewrite Hmap. }
  destruct (common.Cmd cmd); done.
Qed.

(** X12. When every conversation of the snapshot is known and reported at
    or below its cursor, [compareSeqsAndTrigger] under a name other than
    [CmdInit] and [CmdReconnect] calls no fetch and delivers nothing: only
    the sync counter changes. *)
Theorem compareSeqsAndTrigger_below_cursor_is_a_no_op (cmd : Cmd2Value)
    (newSeqMap : gmap string Seq) (m : MsgSyncer) :
  common.Value cmd = common.VSeqMap newSeqMap ->
  common.Cmd cmd <> constant.CmdInit ->
  common.Cmd cmd <> constant.CmdReconnect ->
  (forall k newSeq, newSeqMap !! k = Some newSeq ->
     exists old, syncedMaxSeqs m !! k = Some old /\ maxSeq newSeq <= maxSeqSynced old) ->
  compare cmd m = Returned (set_syncTimes (fun n => wrap64 (n + 1)) m).
Proof.
  intros Hv Hinit Hrec Hbelow. unfold compareSeqsAndTrigger. rewrite Hv. simpl.
  assert (Hfold : forall entries : list (string * Seq),
             (forall k s, (k, s) ∈ entries -> newSeqMap !! k = Some s) ->
             foldl compare_step m entries = m).
  { induction entries as [|[k s] entries IH]; intros Hin; [done|].
    change (foldl compare_step m ((k, s) :: entries))
      with (foldl compare_step (compare_step m (k, s)) entries).
    assert (Hstep : compare_step m (k, s) = m).
    { destruct (Hbelow k s) as (old & Hold & Hle); [apply Hin; by left|].
      unfold compare_step. rewrite Hold.
      destruct (Z.gtb_spec (maxSeq s) (maxSeqSynced old)); [lia|done]. }
    rewrite Hstep. apply IH. intros k' s' H'. apply Hin. by right. }
  assert (Hrange : foldl compare_step m (range_of range_new newSeqMap) = m).
  { apply Hfold. intros k s Hin. rewrite (range_of_perm range_new newSeqMap) in Hin.
    by apply elem_of_map_to_list in Hin. }
  destruct (common.Cmd cmd); try done; by rewrite Hrange.
Qed.

Lemma reconnect_step_adds_no_message m (entry : string * SyncedSeq) :
  exists events,
    trace (reconnect_step m entry) = trace m ++ events /\
    forall msgs, EvNewMsgCome msgs ∈ events -> msgs = [].
Proof.
  destruct entry as [k s]. unfold reconnect_step.
  destruct (maxSeqSynced s =? 0);
    [apply nothing_added_no_message|apply sync_adds_no_message].
Qed.

Lemma sync_step_adds_no_message m (entry : string * SyncedSeq) :
  exists events,
    trace (sync_step m entry) = trace m ++ events /\
    forall msgs, EvNewMsgCome msgs ∈ events -> msgs = [].
Proof.
  destruct entry as [k s]. unfold sync_step.
  destruct (maxSeqSynced s =? 0);
    [apply nothing_added_no_message|apply sync_adds_no_message].
Qed.

Lemma compare_step_adds_no_message m (entry : string * Seq) :
  exists events,
    trace (compare_step m entry) = trace m ++ events /\
    forall msgs, EvNewMsgCome msgs ∈ events -> msgs = [].
Proof.
  destruct entry as [k s]. unfold compare_step.
  destruct (syncedMaxSeqs m !! k) as [old|].
  - destruct (maxSeq s >? maxSeqSynced old);
      [apply sync_adds_no_message|apply nothing_added_no_message].
  - apply sync_adds_no_message.
Qed.

(** X13. [compareSeqsAndTrigger] panics exactly on a payload that is not a
    seq map; on a seq map it returns under every command name, and every
    list it has handed to the conversation channel is empty: the catch-up
    engine moves cursors and never delivers a message. *)
Theorem compareSeqsAndTrigger_never_delivers_a_message (cmd : Cmd2Value) (m : MsgSyncer) :
  ((forall newSeqMap, common.Value cmd <> common.VSeqMap newSeqMap) ->
   compare cmd m = Panicked) /\
  (forall newSeqMap, common.Value cmd = common.VSeqMap newSeqMap ->
   exists m2 events,
     compare cmd m = Returned m2 /\
     trace m2 = trace m ++ events /\
     forall msgs, EvNewMsgCome msgs ∈ events -> msgs = []).
Proof.
  split.
  - intros Hv. unfold compareSeqsAndTrigger.
    destruct (common.Value cmd); try reflexivity. by destruct (Hv newSeqMap).
  - intros newSeqMap Hv. unfold compareSeqsAndTrigger. rewrite Hv. simpl.
    set (m1 := match common.Cmd cmd with
               | constant.CmdInit => triggerSync range_synced m
               | constant.CmdReconnect => triggerReconnect range_synced m
               | _ => m
               end).
    assert (H1 : exists e1, trace m1 = trace m ++ e1 /\
                            forall msgs, EvNewMsgCome msgs ∈ e1 -> msgs = []).
    { subst m1. destruct (common.Cmd cmd); try apply nothing_added_no_message.
      - apply (fold_adds_no_message sync_step), sync_step_adds_no_message.
      - apply (fold_adds_no_message reconnect_step), reconnect_step_adds_no_message. }
    destruct H1 as (e1 & He1 & Hq1).
    destruct (fold_adds_no_message compare_step compare_step_adds_no_message
                (range_of range_new newSeqMap) m1) as (e2 & He2 & Hq2).
    set (m3 := set_syncTimes _ _).
    assert (H3 : trace m3 = trace m ++ e1 ++ e2).
    { subst m3. simpl. by rewrite He2, He1, <- app_assoc. }
    assert (H4 : exists m2 e3,
               match common.Cmd cmd with
               | constant.CmdInit => triggerSyncFinished m3
               | constant.CmdReconnect => triggerReconnectFinished range_finished m3
               | _ => m3
               end = m2 /\ trace m2 = trace m3 ++ e3 /\
               forall msgs, EvNewMsgCome msgs ∈ e3 -> msgs = []).
    { destruct (common.Cmd cmd);
        try (destruct (nothing_added_no_message m3) as (e3 & He3 & Hq3);
             eexists; exists e3; split; [reflexivity|]; split; [exact He3|exact Hq3]).
      destruct (fold_adds_no_message reconnect_step reconnect_step_adds_no_message
                  (range_of range_finished (syncedMaxSeqs m3)) m3) as (e3 & He3 & Hq3).
      eexists. exists e3. split; [reflexivity|]. split; [exact He3|exact Hq3]. }
    destruct H4 as (m2 & e3 & Hm2 & He3 & Hq3).
    exists m2, (e1 ++ e2 ++ e3). rewrite Hm2. split; [done|]. split.
    + rewrite He3, H3. by rewrite <- !app_assoc.
    + intros msgs Hin. apply elem_of_app in Hin as [Hin|Hin]; [eauto|].
      apply elem_of_app in Hin as [Hin|Hin]; eauto.
Qed.

Lemma sync_step_lookup m k (s : SyncedSeq) k' :
  syncedMaxSeqs (sync_step m (k, s)) !! k' =
    if decide (k' = k)
    then (fun (_ : string) (v : SyncedSeq) (old : option SyncedSeq) =>
            if maxSeqSynced v =? 0 then old
            else Some {| maxSeqSynced := wrap64 (maxSeqSynced v + defaultPullNums);
                         sessionType := sessionType v |}) k s (syncedMaxSeqs m !! k)
    else syncedMaxSeqs m !! k'.
Proof.
  unfold sync_step. destruct (maxSeqSynced s =? 0).
  - destruct (decide (k' = k)) as [->|]; done.
  - rewrite sync_eq. simpl. destruct (decide (k' = k)) as [->|Hne].
    + by rewrite lookup_insert_eq.
    + by rewrite lookup_insert_ne.
Qed.

(** X14. [triggerSync], in any iteration order, moves every non-zero
    cursor up by [defaultPullNums], that is by one, keeps the cursors at
    0 and adds no conversation, and the lists it hands to the conversation
    channel are all empty: one more seq per conversation is recorded as
    synced without any message being delivered. *)
Theorem triggerSync_advances_cursors_by_one (m : MsgSyncer) :
  (forall k,
     syncedMaxSeqs (triggerSync range_synced m) !! k =
       match syncedMaxSeqs m !! k with
       | Some s =>
           if maxSeqSynced s =? 0 then Some s
           else Some {| maxSeqSynced := wrap64 (maxSeqSynced s + 1);
                        sessionType := sessionType s |}
       | None => None
       end) /\
  exists events,
    trace (triggerSync range_synced m) = trace m ++ events /\
    forall msgs, EvNewMsgCome msgs ∈ events -> msgs = [].
Proof.
  split.
  - intros k. unfold triggerSync.
    destruct (range_of_keys range_synced (syncedMaxSeqs m)) as [Hnd Hmap].
    rewrite (fold_over_own_keys sync_step _ sync_step_lookup _ m Hnd k), Hmap.
    destruct (syncedMaxSeqs m !! k) as [s|]; [|done].
    destruct (maxSeqSynced s =? 0); done.
  - apply (fold_adds_no_message sync_step), sync_step_adds_no_message.
Qed.

End catch_up_behaviour.

Lemma compareSeqsAndTrigger_cursors_on_snapshot_ahead :
  exists m2,
    compareSeqsAndTrigger unit unit (range_by_key SyncedSeq) (range_by_key Seq)
      (range_by_key SyncedSeq)
      (snapshot_cmd constant.CmdMaxSeq snapshot_ahead) syncer_g50_h7 = Returned m2 /\
    syncedMaxSeqs m2 !! "g"%string = Some {| maxSeqSynced := 60; sessionType := 3 |} /\
    syncedMaxSeqs m2 !! "n"%string = Some {| maxSeqSynced := 5; sessionType := 2 |} /\
    syncedMaxSeqs m2 !! "h"%string = Some {| maxSeqSynced := 7; sessionType := 2 |}.
Proof.
  destruct (@compareSeqsAndTrigger_cursors unit unit (range_by_key SyncedSeq)
              (range_by_key Seq) (range_by_key SyncedSeq) (snapshot_cmd constant.CmdMaxSeq snapshot_ahead)
              snapshot_ahead syncer_g50_h7)
    as (m2 & Hrun & _ & Hmap).
  - reflexivity.
  - discriminate.
  - discriminate.
  - exists m2. split; [exact Hrun|]. rewrite !Hmap. repeat split.
Defined.

Lemma compareSeqsAndTrigger_below_cursor_on_snapshot_behind :
  compareSeqsAndTrigger unit unit (range_by_key SyncedSeq) (range_by_key Seq)
      (range_by_key SyncedSeq)
    (snapshot_cmd constant.CmdMaxSeq snapshot_behind) syncer_g50_h7 =
  Returned (set_syncTimes (fun n => wrap64 (n + 1)) syncer_g50_h7).
Proof.
  apply compareSeqsAndTrigger_below_cursor_is_a_no_op with (newSeqMap := snapshot_behind).
  - reflexivity.
  - discriminate.
  - discriminate.
  - intros k newSeq Hk.
    apply (elem_of_map_to_list snapshot_behind) in Hk.
    vm_compute in Hk.
    apply elem_of_cons in Hk as [Hk|Hk].
    { injection Hk as -> ->. eexists. split; [reflexivity|]. simpl. lia. }
    apply elem_of_cons in Hk as [Hk|Hk].
    { injection Hk as -> ->. eexists. split; [reflexivity|]. simpl. lia. }
    by apply elem_of_nil in Hk.
Defined.

Lemma compareSeqsAndTrigger_never_delivers_on_init :
  compareSeqsAndTrigger unit unit (range_by_key SyncedSeq) (range_by_key Seq)
      (range_by_key SyncedSeq)
    {| common.Cmd := constant.CmdInit; common.Value := common.VNil |}
    syncer_g50_h7 = Panicked /\
  exists m2 events,
    compareSeqsAndTrigger unit unit (range_by_key SyncedSeq) (range_by_key Seq)
      (range_by_key SyncedSeq)
      (snapshot_cmd constant.CmdInit snapshot_ahead) syncer_g50_h7 = Returned m2 /\
    trace m2 = [] ++ events /\
    forall msgs, EvNewMsgCome msgs ∈ events -> msgs = [].
Proof.
  split.
  - apply compareSeqsAndTrigger_never_delivers_a_message. simpl. discriminate.
  - apply (proj2 (@compareSeqsAndTrigger_never_delivers_a_message unit unit
                    (range_by_key SyncedSeq) (range_by_key Seq)
                    (range_by_key SyncedSeq)
                    (snapshot_cmd constant.CmdInit snapshot_ahead) syncer_g50_h7)
             snapshot_ahead).
    reflexivity.
Defined.

(** ** Edges of the enumeration and of the sharding *)

Lemma getSeqsNeedSync_loop_at_max_int64 :
  forall fuel i seqs,
    is_int64 i -> getSeqsNeedSync_loop fuel i max_int64 seqs = OutOfFuel.
Proof.
  induction fuel as [|fuel IH]; intros i seqs Hi; simpl;
    (destruct (Z.leb_spec i max_int64); [|unfold is_int64 in Hi; lia]).
  - done.
  - apply IH, wrap64_is_int64.
Qed.

(** X15. With [maxSeq] the largest [int64], the loop condition
    [i <= maxSeq] of [getSeqsNeedSync] holds for every [i] and the counter
    wraps around: the function does not return, however many iterations it
    is given and whatever the lower bound. *)
Theorem getSeqsNeedSync_at_max_int64_does_not_return (fuel : nat) (syncedMaxSeq : Z) :
  getSeqsNeedSync fuel syncedMaxSeq max_int64 = OutOfFuel.
Proof.
  unfold getSeqsNeedSync. apply getSeqsNeedSync_loop_at_max_int64, wrap64_is_int64.
Qed.

Lemma shards_are_slices (s : nat) (shards : list (list Z)) :
  forall l,
    concat shards = l ->
    (forall j p, shards !! j = Some p ->
       (length p <= s)%nat /\ (S j < length shards -> length p = s)%nat) ->
    forall j p, shards !! j = Some p -> p = take s (drop (j * s) l).
Proof.
  induction shards as [|q rest IH]; intros l Hcat Hsizes j p Hp; [done|].
  simpl in Hcat. subst l. destruct j as [|j]; simpl in Hp.
  - injection Hp as ->. simpl. rewrite drop_0.
    destruct (Hsizes 0%nat p eq_refl) as [Hle Hfull].
    destruct rest as [|r rest].
    + simpl. rewrite app_nil_r. by rewrite take_ge.
    + by rewrite take_app_length' by (symmetry; apply Hfull; simpl; lia).
  - destruct (Hsizes 0%nat q eq_refl) as [_ Hfull].
    assert (Hq : length q = s).
    { apply Hfull. simpl. apply lookup_lt_Some in Hp. lia. }
    replace (S j * s)%nat with (length q + j * s)%nat by lia.
    rewrite <- drop_drop, drop_app_length.
    apply (IH (concat rest)); [done| |done].
    intros j' p' Hp'. destruct (Hsizes (S j') p' Hp') as [Hle' Hfull'].
    split; [done|]. intros. apply Hfull'. simpl. lia.
Qed.

Lemma shards_total_length (s : nat) (shards : list (list Z)) :
  shards <> [] ->
  (forall j p, shards !! j = Some p -> (S j < length shards -> length p = s)%nat) ->
  exists p, last shards = Some p /\
            length (concat shards) = ((length shards - 1) * s + length p)%nat.
Proof.
  induction shards as [|q rest IH]; intros Hne Hsizes; [done|].
  destruct rest as [|r rest].
  - exists q. simpl. rewrite app_nil_r. split; [done|lia].
  - destruct IH as (p & Hlast & Hlen); [done| |].
    { intros j p' Hp' Hj. apply (Hsizes (S j) p' Hp'). simpl in *. lia. }
    exists p. split; [done|].
    assert (Hq : length q = s) by (apply (Hsizes 0%nat q eq_refl); simpl; lia).
    change (concat (q :: r :: rest)) with (q ++ concat (r :: rest)).
    rewrite length_app, Hlen, Hq. simpl. lia.
Qed.

(** X16. For a positive shard size, shard [j] of [splitSeqs] is the slice
    of the list that starts at index [j * split] and holds [split]
    elements, or what is left of the list; an empty list gives one empty
    shard, and a list of [n > 0] elements gives [n / split] shards,
    rounded up. *)
Theorem splitSeqs_shards_are_slices (fuel : nat) (split : Z) (seqsNeedSync : list Z) :
  0 < split ->
  (length seqsNeedSync <= fuel)%nat ->
  exists shards,
    splitSeqs fuel split seqsNeedSync = Returned shards /\
    (forall j p, shards !! j = Some p ->
       p = take (Z.to_nat split) (drop (j * Z.to_nat split) seqsNeedSync)) /\
    len shards =
      if decide (seqsNeedSync = []) then 1
      else (len seqsNeedSync + split - 1) / split.
Proof.
  intros Hsplit Hfuel.
  destruct (splitSeqs_spec fuel split seqsNeedSync Hsplit Hfuel)
    as (shards & Hrun & Hcat & Hne & Hshards).
  exists shards. split; [done|]. split.
  - apply (shards_are_slices (Z.to_nat split) shards seqsNeedSync Hcat).
    intros j p Hp. destruct (Hshards j p Hp) as (Hle & _ & Hfull).
    unfold len in *. split; [lia|]. intros Hj. specialize (Hfull Hj). lia.
  - destruct (decide (seqsNeedSync = [])) as [->|Hnil].
    + unfold splitSeqs in Hrun. simpl in Hrun.
      destruct (Z.leb_spec (len (@nil Z)) split) as [|Hgt];
        [|unfold len in Hgt; simpl in Hgt; lia].
      by injection Hrun as <-.
    + destruct (shards_total_length (Z.to_nat split) shards Hne)
        as (p & Hlast & Hlen).
      { intros j q Hq Hj. destruct (Hshards j q Hq) as (_ & _ & Hfull).
        specialize (Hfull Hj). unfold len in Hfull. lia. }
      assert (Hp : 0 < len p <= split).
      { apply last_Some in Hlast as [front ->].
        destruct (Hshards (length front) p) as (Hle & Hpos & _).
        - by rewrite lookup_app_r, Nat.sub_diag by lia.
        - split; [by apply Hpos|done]. }
      rewrite Hcat in Hlen. unfold len in *.
      assert (Hn : (0 < length shards)%nat) by (destruct shards; [done|simpl; lia]).
      apply (f_equal Z.of_nat) in Hlen.
      rewrite Nat2Z.inj_add, Nat2Z.inj_mul, Nat2Z.inj_sub, Z2Nat.id in Hlen by lia.
      apply (Z.div_unique _ _ _ (Z.of_nat (length p) - 1)); [lia|].
      rewrite Hlen. simpl. ring.
Qed.

Lemma splitSeqs_loop_zero_split (l : list Z) :
  l <> [] ->
  forall fuel acc, splitSeqs_loop fuel 0 l 0 acc = OutOfFuel.
Proof.
  intros Hne. assert (Hlen : 0 < len l) by (destruct l; [done|unfold len; simpl; lia]).
  induction fuel as [|fuel IH]; intros acc; simpl;
    (destruct (Z.ltb_spec 0 (len l)); [|lia]); [done|].
  change (0 + 0) with 0.
  destruct (Z.gtb_spec 0 (len l)); [lia|].
  rewrite slice_in_range by lia. simpl. apply IH.
Qed.

(** X17. A shard size that is not positive: with size 0 a non-empty list is
    never split (the loop index does not move); with a negative size the
    first slice of a non-empty list panics; and with a negative size the
    empty list gives no shard at all. *)
Theorem splitSeqs_without_a_positive_size (fuel : nat) (split : Z) (seqsNeedSync : list Z) :
  (split = 0 -> seqsNeedSync <> [] ->
   splitSeqs fuel split seqsNeedSync = OutOfFuel) /\
  (split < 0 -> seqsNeedSync <> [] ->
   splitSeqs (S fuel) split seqsNeedSync = Panicked) /\
  (split < 0 -> splitSeqs fuel split [] = Returned []).
Proof.
  split; [|split].
  - intros -> Hne. unfold splitSeqs.
    assert (Hlen : 0 < len seqsNeedSync)
      by (destruct seqsNeedSync; [done|unfold len; simpl; lia]).
    destruct (Z.leb_spec (len seqsNeedSync) 0); [lia|].
    by apply splitSeqs_loop_zero_split.
  - intros Hneg Hne. unfold splitSeqs.
    assert (Hlen : 0 < len seqsNeedSync)
      by (destruct seqsNeedSync; [done|unfold len; simpl; lia]).
    destruct (Z.leb_spec (len seqsNeedSync) split); [lia|].
    simpl. destruct (Z.ltb_spec 0 (len seqsNeedSync)); [|lia].
    change (0 + split) with split.
    destruct (Z.gtb_spec split (len seqsNeedSync)); [lia|].
    unfold slice. destruct (Z.leb_spec 0 split); [lia|].
    reflexivity.
  - intros Hneg. unfold splitSeqs.
    destruct (Z.leb_spec (len (@nil Z)) split) as [Hle|];
      [unfold len in Hle; simpl in Hle; lia|].
    destruct fuel; reflexivity.
Qed.

Lemma splitSeqs_shards_are_slices_of_7_by_3 :
  exists shards,
    splitSeqs 7 3 [11; 12; 13; 14; 15; 16; 17] = Returned shards /\
    shards !! 2%nat = Some [17] /\
    len shards = 3.
Proof.
  destruct (splitSeqs_shards_are_slices 7 3 [11; 12; 13; 14; 15; 16; 17])
    as (shards & Hrun & Hslices & Hcount).
  - lia.
  - simpl. lia.
  - exists shards. split; [exact Hrun|]. split; [|exact Hcount].
    vm_compute in Hrun. by injection Hrun as <-.
Defined.

Lemma splitSeqs_without_a_positive_size_on_two_seqs :
  splitSeqs 5 0 [1; 2] = OutOfFuel /\
  splitSeqs 5 (-1) [1; 2] = Panicked /\
  splitSeqs 5 (-1) [] = Returned [].
Proof.
  split; [|split].
  - apply (splitSeqs_without_a_positive_size 5 0 [1; 2]); [reflexivity|discriminate].
  - apply (splitSeqs_without_a_positive_size 4 (-1) [1; 2]); [lia|discriminate].
  - apply (splitSeqs_without_a_positive_size 5 (-1) [1; 2]). lia.
Defined.

(** ** More on the fetch by seqs *)

(** Whether a slice panics depends on the length of the list only. *)
Lemma slice_same_length (l1 l2 : list Z) lo hi :
  length l1 = length l2 ->
  match slice l1 lo hi, slice l2 lo hi with
  | Returned p1, Returned p2 => length p1 = length p2
  | Panicked, Panicked => True
  | _, _ => False
  end.
Proof.
  intros Hlen. unfold slice, len. rewrite Hlen.
  destruct ((0 <=? lo) && (lo <=? hi) && (hi <=? Z.of_nat (length l2))); [|done].
  by rewrite !length_take, !length_drop, Hlen.
Qed.

Lemma splitSeqs_loop_same_length split (l1 l2 : list Z) :
  length l1 = length l2 ->
  forall fuel i acc1 acc2,
    length acc1 = length acc2 ->
    match splitSeqs_loop fuel split l1 i acc1, splitSeqs_loop fuel split l2 i acc2 with
    | Returned r1, Returned r2 => length r1 = length r2
    | Panicked, Panicked => True
    | OutOfFuel, OutOfFuel => True
    | _, _ => False
    end.
Proof.
  intros Hlen. induction fuel as [|fuel IH]; intros i acc1 acc2 Hacc; simpl;
    unfold len; rewrite Hlen; destruct (i <? Z.of_nat (length l2)); try done.
  pose proof (slice_same_length l1 l2 i
                (if i + split >? Z.of_nat (length l2)
                 then Z.of_nat (length l2) else i + split) Hlen) as Hslice.
  destruct (slice l1 i _) as [p1| |], (slice l2 i _) as [p2| |]; simpl; try done.
  apply IH. rewrite !length_app. simpl. lia.
Qed.

Lemma splitSeqs_same_length fuel split (l1 l2 : list Z) :
  length l1 = length l2 ->
  match splitSeqs fuel split l1, splitSeqs fuel split l2 with
  | Returned r1, Returned r2 => length r1 = length r2
  | Panicked, Panicked => True
  | OutOfFuel, OutOfFuel => True
  | _, _ => False
  end.
Proof.
  intros Hlen. unfold splitSeqs, len. rewrite Hlen.
  destruct (Z.of_nat (length l2) <=? split); [done|].
  by apply splitSeqs_loop_same_length.
Qed.

Lemma splitSeqs_shards_count_bound fuel split (l : list Z) :
  0 < split ->
  (Nat.max 1 (length l) <= fuel)%nat ->
  exists shards,
    splitSeqs fuel split l = Returned shards /\ (length shards <= fuel)%nat.
Proof.
  intros Hsplit Hfuel.
  destruct (splitSeqs_spec fuel split l Hsplit) as (shards & Hrun & Hcat & Hne & Hshards);
    [lia|].
  exists shards. split; [done|].
  destruct l as [|x rest] eqn:Hl.
  - unfold splitSeqs in Hrun. simpl in Hrun.
    destruct (Z.leb_spec (len (@nil Z)) split) as [|Hgt];
      [|unfold len in Hgt; simpl in Hgt; lia].
    injection Hrun as <-. simpl in *. lia.
  - pose proof (nonempty_shards_count shards) as Hn.
    rewrite Hcat in Hn.
    assert (length shards <= length (x :: rest))%nat; [|lia].
    apply Hn. intros j p Hp. destruct (Hshards j p Hp) as (_ & Hpos & _).
    by apply Hpos.
Qed.

Section range_fetcher_behaviour.

Variable Conn : Type.
Variable SendReqWaitResp :
  Conn -> sdkws.PullMessageBySeqsReq -> Z -> Z -> string -> Conn * option GeneralWsResp.
Variable proto_Unmarshal : list Byte.byte -> option sdkws.PullMessageBySeqsResp.
Variable SplitPullMsgNum : Z.
Variable WSPullMsgBySeqList : Z.

Abbreviation fetch_loop :=
  (syncMsgBySeqs_loop Conn SendReqWaitResp proto_Unmarshal WSPullMsgBySeqList).
Abbreviation fetch :=
  (syncMsgBySeqs Conn SendReqWaitResp proto_Unmarshal SplitPullMsgNum WSPullMsgBySeqList).

Lemma syncMsgBySeqs_loop_counts_shards m req (shards1 shards2 : list (list Z)) :
  length shards1 = length shards2 ->
  forall fuel i c acc,
    fetch_loop fuel m req shards1 i c acc = fetch_loop fuel m req shards2 i c acc.
Proof.
  intros Hlen. induction fuel as [|fuel IH]; intros i c acc; simpl;
    unfold len; rewrite Hlen; destruct (i <? Z.of_nat (length shards2)); try done.
  destruct (SendReqWaitResp c req WSPullMsgBySeqList retryTimes (loginUserID m))
    as [c' [resp|]]; [|apply IH].
  destruct (proto_Unmarshal (Data resp)); apply IH.
Qed.

(** X18. The request [syncMsgBySeqs] sends carries the user id only: the
    seqs, the conversation and the session type never reach the
    connection. Two calls for seq lists of the same length, on any
    conversations, send the same requests and have the same outcome. *)
Theorem syncMsgBySeqs_ignores_the_seqs (fuel : nat) (m : MsgSyncer)
    (sourceID1 sourceID2 : string) (sessionType1 sessionType2 : Z)
    (seqs1 seqs2 : list Z) (c : Conn) :
  length seqs1 = length seqs2 ->
  fetch fuel m sourceID1 sessionType1 seqs1 c =
  fetch fuel m sourceID2 sessionType2 seqs2 c.
Proof.
  intros Hlen. unfold syncMsgBySeqs.
  pose proof (splitSeqs_same_length fuel SplitPullMsgNum seqs1 seqs2 Hlen) as Hsplit.
  destruct (splitSeqs fuel SplitPullMsgNum seqs1) as [r1| |],
           (splitSeqs fuel SplitPullMsgNum seqs2) as [r2| |]; simpl; try done.
  by rewrite (syncMsgBySeqs_loop_counts_shards m _ r1 r2 Hsplit).
Qed.

Lemma syncMsgBySeqs_loop_undecodable m req (seqsList : list (list Z)) :
  (forall c r id n u, (SendReqWaitResp c r id n u).2 <> None) ->
  (forall data, proto_Unmarshal data = None) ->
  forall fuel i c acc,
    (Z.to_nat (len seqsList - i) <= fuel)%nat ->
    exists c', fetch_loop fuel m req seqsList i c acc = Returned (c', acc).
Proof.
  intros Hup Hbad. induction fuel as [|fuel IH]; intros i c acc Hfuel; simpl.
  - destruct (Z.ltb_spec i (len seqsList)); [lia|eauto].
  - destruct (Z.ltb_spec i (len seqsList)); [|eauto].
    pose proof (Hup c req WSPullMsgBySeqList retryTimes (loginUserID m)) as Hsome.
    destruct (SendReqWaitResp c req WSPullMsgBySeqList retryTimes (loginUserID m))
      as [c' [resp|]]; simpl in *; [|done].
    rewrite Hbad. apply IH. lia.
Qed.

(** X19. A reply that does not decode is neither asked for again nor
    reported: when every request is answered and no reply decodes, the
    fetch returns the empty list with the nil error. *)
Theorem syncMsgBySeqs_swallows_decode_failures (fuel : nat) (m : MsgSyncer)
    (sourceID : string) (sessionType : Z) (seqsNeedSync : list Z) (c : Conn) :
  (forall c' r id n u, (SendReqWaitResp c' r id n u).2 <> None) ->
  (forall data, proto_Unmarshal data = None) ->
  0 < SplitPullMsgNum ->
  (Nat.max 1 (length seqsNeedSync) <= fuel)%nat ->
  exists c',
    fetch fuel m sourceID sessionType seqsNeedSync c = Returned (c', ([], None)).
Proof.
  intros Hup Hbad Hsplit Hfuel. unfold syncMsgBySeqs.
  destruct (splitSeqs_shards_count_bound fuel SplitPullMsgNum seqsNeedSync Hsplit)
    as (shards & Hrun & Hcount); [lia|].
  rewrite Hrun. simpl.
  destruct (syncMsgBySeqs_loop_undecodable m {| sdkws.UserID := loginUserID m |}
              shards Hup Hbad fuel 0 c []) as [c' Hc'].
  { unfold len. lia. }
  rewrite Hc'. simpl. eauto.
Qed.

End range_fetcher_behaviour.

Lemma syncMsgBySeqs_ignores_the_seqs_1_to_3_and_7_to_9 :
  syncMsgBySeqs nat conn_answers decode_one 3 1 5 (syncer_of []) "g" 3 [1; 2; 3] 0%nat =
  syncMsgBySeqs nat conn_answers decode_one 3 1 5 (syncer_of []) "h" 2 [7; 8; 9] 0%nat.
Proof.
  apply (syncMsgBySeqs_ignores_the_seqs nat conn_answers decode_one 3 1).
  reflexivity.
Defined.

Lemma syncMsgBySeqs_swallows_decode_failures_on_7_seqs :
  exists c',
    syncMsgBySeqs nat conn_answers (fun _ => None) 3 1 7 (syncer_of []) "g" 3
      [1; 2; 3; 4; 5; 6; 7] 0%nat = Returned (c', ([], None)).
Proof.
  apply (syncMsgBySeqs_swallows_decode_failures nat conn_answers (fun _ => None) 3 1).
  - intros c' r id n u. simpl. discriminate.
  - reflexivity.
  - lia.
  - simpl. lia.
Defined.

(** ** More on the super group table *)

Lemma foldl_snoc_is_app {A B : Type} (f : A -> B) (l : list A) :
  forall acc, foldl (fun acc v => acc ++ [f v]) acc l = acc ++ (f <$> l).
Proof.
  induction l as [|x l IH]; intros acc; simpl.
  - by rewrite app_nil_r.
  - rewrite IH, <- app_assoc. done.
Qed.

(** X20. [GetJoinedSuperGroupList] returns the rows the query read, all of
    them and in the order of the query, together with the wrapped error of
    the query: the rows are returned also when the error is not nil. *)
Theorem GetJoinedSuperGroupList_returns_the_rows
    (Wrap : error -> string -> error) (d : db.DataBase) :
  db.GetJoinedSuperGroupList Wrap d =
    ((db.conn d db.SuperGroupTableName).1,
     Wrap (db.conn d db.SuperGroupTableName).2 "GetJoinedSuperGroupList failed ").
Proof.
  unfold db.GetJoinedSuperGroupList.
  destruct (db.conn d db.SuperGroupTableName) as [groupList err]. simpl.
  rewrite (foldl_snoc_is_app id). simpl. by rewrite list_fmap_id.
Qed.
